(** * simple_dsl: a words-as-numbers expression language

    A shallow embedding of [simple_dsl.py]: the vocabulary tables, the
    regex tokenizer, the shunting-yard conversion to postfix order, the
    postfix evaluator and the statement runner, followed by the properties
    proved about them.

    Conventions of the embedding.
    - A Python [str] is a Rocq [string], one character per code point; the
      text handled is the one whose code points are below 256, and the
      character classes ([isspace], [lower], line boundaries) are Python's
      on that range.
    - A Python [int] is a [Z].  Floats are the interpreter's, not the
      program's: their type and arithmetic are parameters of the evaluator.
      An int is read from a text or written as one under the
      interpreter's default limit of 4300 decimal digits.
    - A raised exception is a value of [exn]; the text of a message is kept
      as the data it is formatted from.
    - A Python list used as a stack ([append]/[pop] at the end) is a Rocq
      list whose head is the top of the stack. *)

From Stdlib Require Import ZArith String Ascii List Bool Lia DecimalString.
From stdpp Require Import base option list gmap strings.
Import ListNotations.

Local Open Scope string_scope.
Local Open Scope list_scope.
Local Open Scope Z_scope.

(** ** Python strings *)

Module Str.

Definition code (c : ascii) : nat := nat_of_ascii c.

Definition between (lo hi c : ascii) : bool :=
  (code lo <=? code c)%nat && (code c <=? code hi)%nat.

(** [str.isspace] on one character, which is also the regex class [\s]:
    U+0009..U+000D, U+001C..U+0020, U+0085, U+00A0. *)
Definition isspace (c : ascii) : bool :=
  let n := code c in
  ((9 <=? n) && (n <=? 13) || (28 <=? n) && (n <=? 32)
   || (n =? 133) || (n =? 160))%nat.

(** The line boundaries of [str.splitlines] (the pair CR LF counts once). *)
Definition islinebreak (c : ascii) : bool :=
  let n := code c in
  ((10 <=? n) && (n <=? 13) || (28 <=? n) && (n <=? 30) || (n =? 133))%nat.

Definition lower_char (c : ascii) : ascii :=
  let n := code c in
  if ((65 <=? n) && (n <=? 90)
      || (192 <=? n) && (n <=? 222) && negb (n =? 215))%nat
  then ascii_of_nat (n + 32) else c.

Fixpoint lower (s : string) : string :=
  match s with
  | EmptyString => EmptyString
  | String c s' => String (lower_char c) (lower s')
  end.

(** [s[n:]] *)
Fixpoint drop (n : nat) (s : string) : string :=
  match n, s with
  | O, _ => s
  | S n', String _ s' => drop n' s'
  | S _, EmptyString => EmptyString
  end.

(** [s[i:j]] *)
Definition slice (i j : nat) (s : string) : string := substring i (j - i) s.

Fixpoint lstrip (s : string) : string :=
  match s with
  | String c s' => if isspace c then lstrip s' else s
  | EmptyString => EmptyString
  end.

Fixpoint rstrip (s : string) : string :=
  match s with
  | EmptyString => EmptyString
  | String c s' =>
      match rstrip s' with
      | EmptyString => if isspace c then EmptyString else String c EmptyString
      | r => String c r
      end
  end.

Definition strip (s : string) : string := rstrip (lstrip s).

(** [s.startswith(p)] *)
Fixpoint startswith (s p : string) : bool :=
  match p, s with
  | EmptyString, _ => true
  | String c p', String d s' => Ascii.eqb c d && startswith s' p'
  | String _ _, EmptyString => false
  end.

(** [c in s] for a one-character [c] *)
Fixpoint contains (c : ascii) (s : string) : bool :=
  match s with
  | EmptyString => false
  | String d s' => Ascii.eqb c d || contains c s'
  end.

(** [s.split(c, 1)] when [c in s]: the text before and after the first [c]. *)
Fixpoint split_first (c : ascii) (s : string) : string * string :=
  match s with
  | EmptyString => (EmptyString, EmptyString)
  | String d s' =>
      if Ascii.eqb c d then (EmptyString, s')
      else let '(l, r) := split_first c s' in (String d l, r)
  end.

(** [s.splitlines()] *)
Fixpoint splitlines_aux (cur : string) (s : string) : list string :=
  match s with
  | EmptyString =>
      match cur with EmptyString => [] | _ => [cur] end
  | String c s' =>
      if islinebreak c then
        match s' with
        | String d s'' =>
            if ((code c =? 13) && (code d =? 10))%nat
            then cur :: splitlines_aux EmptyString s''
            else cur :: splitlines_aux EmptyString s'
        | EmptyString => [cur]
        end
      else splitlines_aux (cur +:+ String c EmptyString) s'
  end.

Definition splitlines (s : string) : list string := splitlines_aux EmptyString s.

(** The length of the longest prefix of [s] made of characters in [p]:
    what a greedy [p*] consumes. *)
Fixpoint span (p : ascii -> bool) (s : string) : nat :=
  match s with
  | String c s' => if p c then S (span p s') else O
  | EmptyString => O
  end.

(** [str(n)] for an int. *)
Definition of_int (z : Z) : string := NilZero.string_of_int (Z.to_int z).

Definition isdigit (c : ascii) : bool := between "0" "9" c.

Fixpoint digits (acc : Z) (after_digit : bool) (s : string) : option Z :=
  match s with
  | EmptyString => if after_digit then Some acc else None
  | String c s' =>
      if isdigit c
      then digits (10 * acc + Z.of_nat (code c - 48)) true s'
      else if Ascii.eqb c "_" && after_digit then
        match s' with
        | String d _ => if isdigit d then digits acc false s' else None
        | EmptyString => None
        end
      else None
  end.

(** The most decimal digits an int may have when it is read from a text
    or written as one (the interpreter's default limit). *)
Definition max_str_digits : nat := 4300.

(** Whether [str(z)] returns: [z] has at most [max_str_digits] digits, the
    sign not counted. *)
Definition fits_str (z : Z) : bool :=
  (String.length (of_int (Z.abs z)) <=? max_str_digits)%nat.

(** The white space [int()] skips around its text: unlike [str.strip], not
    U+001C..U+001F. *)
Definition int_isspace (c : ascii) : bool :=
  let n := code c in
  ((9 <=? n) && (n <=? 13) || (n =? 32) || (n =? 133) || (n =? 160))%nat.

Fixpoint lstrip_by (p : ascii -> bool) (s : string) : string :=
  match s with
  | String c s' => if p c then lstrip_by p s' else s
  | EmptyString => EmptyString
  end.

Fixpoint rstrip_by (p : ascii -> bool) (s : string) : string :=
  match s with
  | EmptyString => EmptyString
  | String c s' =>
      match rstrip_by p s' with
      | EmptyString => if p c then EmptyString else String c EmptyString
      | r => String c r
      end
  end.

Fixpoint digit_count (s : string) : nat :=
  match s with
  | EmptyString => O
  | String c s' => if isdigit c then S (digit_count s') else digit_count s'
  end.

(** [int(s)] in base ten: surrounding white space, an optional sign, digits
    with single underscores between them, at most [max_str_digits] digits.
    [None] is [ValueError]. *)
Definition to_int (s : string) : option Z :=
  let text := rstrip_by int_isspace (lstrip_by int_isspace s) in
  if (max_str_digits <? digit_count text)%nat then None
  else
    match text with
    | String "-" s' => Z.opp <$> digits 0 false s'
    | String "+" s' => digits 0 false s'
    | s' => digits 0 false s'
    end.

End Str.

(** ** Tokens, exceptions, outcomes *)

(** [Token]: a frozen dataclass of two strings.  The kinds the tokenizer
    produces are "NUM", "ID", "OP", "LPAREN", "RPAREN" and "EQ". *)
Record Token := mkToken { kind : string; value : string }.

(** The messages of the [SyntaxError]s the program raises, each with the
    values its f-string interpolates. *)
Inductive syntax_error :=
| UnexpectedCharacter (i : nat) (c : string)
| MismatchedParentheses
| UnexpectedTokenInExpression (t : Token)
| NotEnoughValues
| UnknownOperator (op : string)
| UnexpectedTokenInRPN (t : Token)
| NotSingleValue
| InvalidVariableName (lineno : nat) (name : string)
| UnknownStatement (lineno : nat) (line : string).

(** What the interpreter's arithmetic raises. *)
Inductive arithmetic_error := ZeroDivisionError | OverflowError.

Inductive exn :=
| SyntaxError (e : syntax_error)
| NameError (name : string)        (* "Undefined variable: name" *)
| KeyError (key : string)          (* a subscript of [PRECEDENCE] or [env] *)
| ValueError (s : string)          (* [int(s)] *)
| StrDigitsError                   (* the [ValueError] of [str(n)] for an
                                      int over the digit limit *)
| ArithmeticError (e : arithmetic_error).

(** What a call does: return a value or raise.  [OutOfFuel] belongs to the
    embedding only: the [while] loop of the tokenizer is run with a bound
    on its iterations, and the bound [tokenize_expr] gives it is shown
    below never to be reached. *)
Inductive outcome (A : Type) :=
| Ok (a : A)
| Raise (e : exn)
| OutOfFuel.
Arguments Ok {A} a.
Arguments Raise {A} e.
Arguments OutOfFuel {A}.

Definition bind {A B} (m : outcome A) (k : A -> outcome B) : outcome B :=
  match m with
  | Ok a => k a
  | Raise e => Raise e
  | OutOfFuel => OutOfFuel
  end.

Notation "'let*' x := m 'in' k" := (bind m (fun x => k))
  (at level 10, x pattern, m at level 100, k at level 200).

(** ** 1) Vocabulary *)

Definition NUM_WORDS : gmap string Z :=
  list_to_map
    [("zero", 0); ("one", 1); ("two", 2); ("three", 3); ("four", 4);
     ("five", 5); ("six", 6); ("seven", 7); ("eight", 8); ("nine", 9);
     ("ten", 10); ("eleven", 11); ("twelve", 12); ("thirteen", 13);
     ("fourteen", 14); ("fifteen", 15); ("sixteen", 16); ("seventeen", 17);
     ("eighteen", 18); ("nineteen", 19); ("twenty", 20)].

Definition OP_WORDS : gmap string string :=
  list_to_map
    [("plus", "+"); ("minus", "-"); ("times", "*"); ("divided_by", "/");
     ("power", "**")].

Definition PRECEDENCE : gmap string (Z * string) :=
  list_to_map
    [("**", (4, "right")); ("*", (3, "left")); ("/", (3, "left"));
     ("+", (2, "left")); ("-", (2, "left"))].

(** ** 2) Tokenizer *)

(** The named groups of [TOKEN_RE], in the order of its alternatives. *)
Inductive group := WS | LPAREN | RPAREN | EQ | ID.

Definition is_id_start (c : ascii) : bool :=
  Str.between "A" "Z" c || Str.between "a" "z" c || Ascii.eqb c "_".

Definition is_id_char (c : ascii) : bool :=
  is_id_start c || Str.between "0" "9" c.

(** [TOKEN_RE.match(expr, i)]: the group that matched ([m.lastgroup]) and
    the end of the match ([m.end()]), or [None] when no alternative matches
    at [i].  The alternatives start with disjoint characters, so the first
    character selects the group, and the greedy [\s+] and
    [[A-Za-z_0-9]*] take the longest run. *)
Definition TOKEN_RE_match (expr : string) (i : nat) : option (group * nat) :=
  match String.get i expr with
  | None => None
  | Some c =>
      if Str.isspace c
      then Some (WS, (i + Str.span Str.isspace (Str.drop i expr))%nat)
      else if Ascii.eqb c "(" then Some (LPAREN, S i)
      else if Ascii.eqb c ")" then Some (RPAREN, S i)
      else if Ascii.eqb c "=" then Some (EQ, S i)
      else if is_id_start c
      then Some (ID, (S i + Str.span is_id_char (Str.drop (S i) expr))%nat)
      else None
  end.

(** The tokens one match appends. *)
Definition token_of (g : group) (text : string) : list Token :=
  match g with
  | WS => []
  | LPAREN => [mkToken "LPAREN" text]
  | RPAREN => [mkToken "RPAREN" text]
  | EQ => [mkToken "EQ" text]
  | ID =>
      let w := Str.lower text in
      match NUM_WORDS !! w with
      | Some n => [mkToken "NUM" (Str.of_int n)]
      | None =>
          match OP_WORDS !! w with
          | Some op => [mkToken "OP" op]
          | None => [mkToken "ID" text]
          end
      end
  end.

(** The [while i < len(expr)] loop, at most [fuel] iterations of it. *)
Fixpoint tokenize_loop (fuel : nat) (expr : string) (i : nat)
    (tokens : list Token) : outcome (list Token) :=
  if (i <? String.length expr)%nat then
    match fuel with
    | O => OutOfFuel
    | S fuel' =>
        match TOKEN_RE_match expr i with
        | None =>
            Raise (SyntaxError (UnexpectedCharacter i (Str.slice i (S i) expr)))
        | Some (g, j) =>
            tokenize_loop fuel' expr j (tokens ++ token_of g (Str.slice i j expr))
        end
    end
  else Ok tokens.

Definition tokenize_expr (expr : string) : outcome (list Token) :=
  tokenize_loop (String.length expr) expr 0 [].

(** ** 3) Parser: shunting-yard to RPN *)

Definition kind_is (t : Token) (k : string) : bool := String.eqb (kind t) k.

(** The [while stack and stack[-1].kind == "OP"] loop of an operator with
    precedence [p1] and associativity [assoc1]. *)
Fixpoint pop_operators (p1 : Z) (assoc1 : string) (out stack : list Token)
    : outcome (list Token * list Token) :=
  match stack with
  | top :: rest =>
      if kind_is top "OP" then
        match PRECEDENCE !! value top with
        | None => Raise (KeyError (value top))
        | Some (p2, _) =>
            if String.eqb assoc1 "left" && (p1 <=? p2)
               || String.eqb assoc1 "right" && (p1 <? p2)
            then pop_operators p1 assoc1 (out ++ [top]) rest
            else Ok (out, stack)
        end
      else Ok (out, stack)
  | [] => Ok (out, stack)
  end.

(** The [while stack and stack[-1].kind != "LPAREN"] loop. *)
Fixpoint pop_to_lparen (out stack : list Token) : list Token * list Token :=
  match stack with
  | top :: rest =>
      if negb (kind_is top "LPAREN") then pop_to_lparen (out ++ [top]) rest
      else (out, stack)
  | [] => (out, stack)
  end.

(** The body of [for t in tokens], on the pair of [out] and [stack]. *)
Definition to_rpn_step (t : Token) (out stack : list Token)
    : outcome (list Token * list Token) :=
  if kind_is t "NUM" || kind_is t "ID" then Ok (out ++ [t], stack)
  else if kind_is t "OP" then
    match PRECEDENCE !! value t with
    | None => Raise (KeyError (value t))
    | Some (p1, assoc1) =>
        let* (out', stack') := pop_operators p1 assoc1 out stack in
        Ok (out', t :: stack')
    end
  else if kind_is t "LPAREN" then Ok (out, t :: stack)
  else if kind_is t "RPAREN" then
    let '(out', stack') := pop_to_lparen out stack in
    match stack' with
    | [] => Raise (SyntaxError MismatchedParentheses)
    | top :: rest =>
        if negb (kind_is top "LPAREN")
        then Raise (SyntaxError MismatchedParentheses)
        else Ok (out', rest)
    end
  else Raise (SyntaxError (UnexpectedTokenInExpression t)).

Fixpoint to_rpn_loop (tokens out stack : list Token)
    : outcome (list Token * list Token) :=
  match tokens with
  | [] => Ok (out, stack)
  | t :: tokens' =>
      let* (out', stack') := to_rpn_step t out stack in
      to_rpn_loop tokens' out' stack'
  end.

(** The final [while stack] loop. *)
Fixpoint drain (out stack : list Token) : outcome (list Token) :=
  match stack with
  | [] => Ok out
  | top :: rest =>
      if kind_is top "LPAREN" || kind_is top "RPAREN"
      then Raise (SyntaxError MismatchedParentheses)
      else drain (out ++ [top]) rest
  end.

Definition to_rpn (tokens : list Token) : outcome (list Token) :=
  let* (out, stack) := to_rpn_loop tokens [] [] in
  drain out stack.

(** ** 4) Evaluator *)

(** A Python number: an [int], or one of the interpreter's floats. *)
Inductive number (F : Type) :=
| VInt (z : Z)
| VFloat (x : F).
Arguments VInt {F} z.
Arguments VFloat {F} x.

(** The arithmetic of the interpreter that is not integer arithmetic.
    [flonum] is the type of the numbers that are not [int]s;
    [int_truediv a b] is [a / b] for ints with [b] not zero;
    [int_pow_neg a b] is [a ** b] for ints with [b] negative;
    [flo_arith op a b] is [a op b] when [a] or [b] is not an int.  Each
    returns a number that is not an int, or raises an arithmetic error. *)
Record host := Host {
  flonum : Type;
  int_truediv : Z -> Z -> arithmetic_error + flonum;
  int_pow_neg : Z -> Z -> arithmetic_error + flonum;
  flo_arith : string -> number flonum -> number flonum -> arithmetic_error + flonum
}.

(** A host without floats: every operation that would make one raises
    [OverflowError].  It runs the programs whose values are all ints. *)
Definition int_only : host :=
  {| flonum := Empty_set;
     int_truediv := fun _ _ => inl OverflowError;
     int_pow_neg := fun _ _ => inl OverflowError;
     flo_arith := fun _ _ _ => inl OverflowError |}.

(** Code that runs against a mutable object of type [S] (the dict [env], or
    the dict and the standard output): from the object before the call to
    the object after it and what the call did. *)
Definition action (S A : Type) : Type := S -> S * outcome A.

Definition ret {S A} (a : A) : action S A := fun s => (s, Ok a).

Definition lift {S A} (m : outcome A) : action S A := fun s => (s, m).

Definition raise {S A} (e : exn) : action S A := lift (Raise e).

Definition and_then {S A B} (m : action S A) (k : A -> action S B)
    : action S B :=
  fun s =>
    match m s with
    | (s', Ok a) => k a s'
    | (s', Raise e) => (s', Raise e)
    | (s', OutOfFuel) => (s', OutOfFuel)
    end.

Notation "'let+' x := m 'in' k" := (and_then m (fun x => k))
  (at level 10, x pattern, m at level 100, k at level 200).

Section Evaluator.

Context (H : host).

Abbreviation val := (number (flonum H)).
Abbreviation env := (gmap string val).

Definition of_host (r : arithmetic_error + flonum H) : outcome val :=
  match r with
  | inl e => Raise (ArithmeticError e)
  | inr x => Ok (VFloat x)
  end.

(** [a + b], [a - b], [a * b], [a / b], [a ** b] *)
Definition add (a b : val) : outcome val :=
  match a, b with
  | VInt x, VInt y => Ok (VInt (x + y))
  | _, _ => of_host (flo_arith H "+" a b)
  end.

Definition sub (a b : val) : outcome val :=
  match a, b with
  | VInt x, VInt y => Ok (VInt (x - y))
  | _, _ => of_host (flo_arith H "-" a b)
  end.

Definition mul (a b : val) : outcome val :=
  match a, b with
  | VInt x, VInt y => Ok (VInt (x * y))
  | _, _ => of_host (flo_arith H "*" a b)
  end.

Definition truediv (a b : val) : outcome val :=
  match a, b with
  | VInt x, VInt y =>
      if y =? 0 then Raise (ArithmeticError ZeroDivisionError)
      else of_host (int_truediv H x y)
  | _, _ => of_host (flo_arith H "/" a b)
  end.

Definition pow (a b : val) : outcome val :=
  match a, b with
  | VInt x, VInt y =>
      if 0 <=? y then Ok (VInt (x ^ y))
      else of_host (int_pow_neg H x y)
  | _, _ => of_host (flo_arith H "**" a b)
  end.

(** [name in env], [env[name]], [env[name] = v] *)
Definition env_contains (name : string) : action env bool :=
  fun e => (e, Ok (match e !! name with Some _ => true | None => false end)).

Definition env_getitem (name : string) : action env val :=
  fun e =>
    (e, match e !! name with Some v => Ok v | None => Raise (KeyError name) end).

Definition env_setitem (name : string) (v : val) : action env unit :=
  fun e => (<[name := v]> e, Ok tt).

Definition pop_num (st : list val) : outcome (val * list val) :=
  match st with
  | [] => Raise (SyntaxError NotEnoughValues)
  | v :: st' => Ok (v, st')
  end.

(** The body of [for t in rpn], on the value stack [st]. *)
Definition eval_token (t : Token) (st : list val) : action env (list val) :=
  if kind_is t "NUM" then
    match Str.to_int (value t) with
    | Some n => ret (VInt n :: st)
    | None => raise (ValueError (value t))
    end
  else if kind_is t "ID" then
    let+ present := env_contains (value t) in
    if negb present then raise (NameError (value t))
    else let+ v := env_getitem (value t) in ret (v :: st)
  else if kind_is t "OP" then
    lift (let* (b, st1) := pop_num st in
          let* (a, st2) := pop_num st1 in
          if String.eqb (value t) "+" then
            let* r := add a b in Ok (r :: st2)
          else if String.eqb (value t) "-" then
            let* r := sub a b in Ok (r :: st2)
          else if String.eqb (value t) "*" then
            let* r := mul a b in Ok (r :: st2)
          else if String.eqb (value t) "/" then
            let* r := truediv a b in Ok (r :: st2)
          else if String.eqb (value t) "**" then
            let* r := pow a b in Ok (r :: st2)
          else Raise (SyntaxError (UnknownOperator (value t))))
  else raise (SyntaxError (UnexpectedTokenInRPN t)).

Fixpoint eval_loop (rpn : list Token) (st : list val)
    : action env (list val) :=
  match rpn with
  | [] => ret st
  | t :: rpn' => let+ st' := eval_token t st in eval_loop rpn' st'
  end.

Definition eval_rpn (rpn : list Token) : action env val :=
  let+ st := eval_loop rpn [] in
  match st with
  | [v] => ret v
  | _ => raise (SyntaxError NotSingleValue)
  end.

Definition eval_expr (expr : string) : action env val :=
  let+ tokens := lift (tokenize_expr expr) in
  let+ rpn := lift (to_rpn tokens) in
  eval_rpn rpn.

(** ** 5) Statement runner *)

(** [re.fullmatch(r"[A-Za-z_][A-Za-z_0-9]*", name)] *)
Definition is_identifier (name : string) : bool :=
  match name with
  | String c rest =>
      is_id_start c && (Str.span is_id_char rest =? String.length rest)%nat
  | EmptyString => false
  end.

(** The runner's mutable objects: its dict [env] and the standard output,
    as the values printed so far. *)
Abbreviation world := (env * list val)%type.

(** [eval_expr(expr, env)] from the runner. *)
Definition on_env {A} (m : action env A) : action world A :=
  fun '(e, out) => let '(e', r) := m e in ((e', out), r).

(** Whether [str(v)] returns: always for a float, for an int within the
    digit limit. *)
Definition printable (v : val) : bool :=
  match v with
  | VInt z => Str.fits_str z
  | VFloat _ => true
  end.

(** [print(val)]: the text of the value is made first, so a value that has
    none raises and prints nothing. *)
Definition print (v : val) : action world unit :=
  fun '(e, out) =>
    if printable v then ((e, out ++ [v]), Ok tt)
    else ((e, out), Raise StrDigitsError).

Definition assign (name : string) (v : val) : action world unit :=
  on_env (env_setitem name v).

(** The body of [for lineno, raw in enumerate(program.splitlines(), start=1)]. *)
Definition run_line (lineno : nat) (raw : string) : action world unit :=
  let line := Str.strip raw in
  if String.eqb line "" || Str.startswith line "#" then ret tt
  else if Str.startswith (Str.lower line) "print " then
    let expr := Str.strip (Str.drop 6 line) in
    let+ v := on_env (eval_expr expr) in
    print v
  else if Str.contains "=" line then
    let '(lhs, rhs) := Str.split_first "=" line in
    let name := Str.strip lhs in
    if negb (is_identifier name)
    then raise (SyntaxError (InvalidVariableName lineno name))
    else
      let+ v := on_env (eval_expr (Str.strip rhs)) in
      assign name v
  else raise (SyntaxError (UnknownStatement lineno line)).

Fixpoint run_lines (lineno : nat) (lines : list string) : action world unit :=
  match lines with
  | [] => ret tt
  | raw :: rest => let+ _ := run_line lineno raw in run_lines (S lineno) rest
  end.

(** [run_dsl(program)]: what was printed, and the final [env] or the
    exception. *)
Definition run_dsl (program : string) : list val * outcome env :=
  match run_lines 1 (Str.splitlines program) (∅, []) with
  | ((e, out), Ok _) => (out, Ok e)
  | ((_, out), Raise x) => (out, Raise x)
  | ((_, out), OutOfFuel) => (out, OutOfFuel)
  end.

End Evaluator.

(** ** Predicates of the specification *)

(** The kinds of token the evaluator executes. *)
Definition rpn_kind (t : Token) : Prop :=
  kind t = "NUM" \/ kind t = "ID" \/ kind t = "OP".

(** The kinds of token the parser keeps on its stack. *)
Definition stack_kind (t : Token) : Prop :=
  kind t = "OP" \/ kind t = "LPAREN".

(** What every iteration of the parser keeps: [out] holds operands and
    operators, [stack] holds operators and left parentheses. *)
Definition parser_inv (out stack : list Token) : Prop :=
  Forall rpn_kind out /\ Forall stack_kind stack.

(** ** Sample inputs *)

(** The tokens of "( one plus x ) times two". *)
Definition paren_tokens : list Token :=
  [mkToken "LPAREN" "("; mkToken "NUM" "1"; mkToken "OP" "+";
   mkToken "ID" "x"; mkToken "RPAREN" ")"; mkToken "OP" "*"; mkToken "NUM" "2"].

(** The line [print<TAB>one]: the keyword, a tab (U+0009), an expression. *)
Definition tab_print_line : string := "print" +:+ String "009" "one".

(** The line feed, and two programs: one whose third line is no statement,
    one that binds two names. *)
Definition nl : string := String "010" "".

Definition failing_program : string :=
  "x = five" +:+ nl +:+ "print x" +:+ nl +:+ "foo bar" +:+ nl +:+ "print x".

Definition two_names_program : string :=
  "x = five" +:+ nl +:+ "# twice" +:+ nl +:+ "y_2 = x times two".

(** An environment that binds [x] only. *)
Definition env_x : gmap string (number (flonum int_only)) :=
  <["x" := VInt 5]> ∅.

(** ** Predicates on tokens and programs *)

(** A token as the tokenizer makes them: a number of the vocabulary written
    in decimal, an operator of the precedence table, an identifier that is
    no word of the vocabulary, a parenthesis or an equals sign. *)
Definition lexed (t : Token) : Prop :=
  (kind t = "NUM"
   /\ exists w n, NUM_WORDS !! w = Some n /\ value t = Str.of_int n)
  \/ (kind t = "OP"
      /\ exists w, OP_WORDS !! w = Some (value t)
                   /\ is_Some (PRECEDENCE !! value t))
  \/ (kind t = "ID" /\ is_identifier (value t) = true
      /\ NUM_WORDS !! Str.lower (value t) = None
      /\ OP_WORDS !! Str.lower (value t) = None)
  \/ t = mkToken "LPAREN" "(" \/ t = mkToken "RPAREN" ")"
  \/ t = mkToken "EQ" "=".

(** Operands (numbers and identifiers) and parentheses, as tests. *)
Definition is_operand (t : Token) : bool := kind_is t "NUM" || kind_is t "ID".

Definition is_paren (t : Token) : bool :=
  kind_is t "LPAREN" || kind_is t "RPAREN".

(** A token the parser has a case for: an operand, an operator of the
    precedence table, or a parenthesis. *)
Definition parsable (t : Token) : Prop :=
  is_operand t = true
  \/ (kind t = "OP" /\ is_Some (PRECEDENCE !! value t))
  \/ is_paren t = true.

(** The number of parentheses left open after [tokens], starting with [d]
    open; [None] when a right parenthesis closes nothing. *)
Fixpoint paren_depth (d : nat) (tokens : list Token) : option nat :=
  match tokens with
  | [] => Some d
  | t :: tokens' =>
      if kind_is t "LPAREN" then paren_depth (S d) tokens'
      else if kind_is t "RPAREN" then
        match d with
        | O => None
        | S d' => paren_depth d' tokens'
        end
      else paren_depth d tokens'
  end.

(** The left parentheses on the parser's stack. *)
Fixpoint open_parens (stack : list Token) : nat :=
  match stack with
  | [] => O
  | t :: stack' =>
      if kind_is t "LPAREN" then S (open_parens stack') else open_parens stack'
  end.

(** The parser's stack holds operators of the precedence table and left
    parentheses. *)
Definition stack_ok (stack : list Token) : Prop :=
  Forall (fun t => (kind t = "OP" /\ is_Some (PRECEDENCE !! value t))
                   \/ kind t = "LPAREN") stack.

(** Why the parser raises [x] at token [t] with [d] parentheses open. *)
Definition offending (d : nat) (t : Token) (x : exn) : Prop :=
  (kind t = "RPAREN" /\ d = O /\ x = SyntaxError MismatchedParentheses)
  \/ (kind t = "OP" /\ PRECEDENCE !! value t = None /\ x = KeyError (value t))
  \/ (is_operand t = false /\ kind t <> "OP" /\ is_paren t = false
      /\ x = SyntaxError (UnexpectedTokenInExpression t)).

(** The position in [s] of the first character that neither continues an
    identifier ([in_id] says whether one is running) nor starts a token:
    the first character that is not white space, a parenthesis, an equals
    sign or the first character of an identifier. *)
Fixpoint first_bad (in_id : bool) (s : string) : option nat :=
  match s with
  | EmptyString => None
  | String c s' =>
      if in_id && is_id_char c then S <$> first_bad true s'
      else if Str.isspace c || Ascii.eqb c "(" || Ascii.eqb c ")"
              || Ascii.eqb c "="
      then S <$> first_bad false s'
      else if is_id_start c then S <$> first_bad true s'
      else Some O
  end.

(** The two errors that are the runner's own. *)
Definition statement_error (x : exn) : Prop :=
  (exists k line, x = SyntaxError (UnknownStatement k line))
  \/ (exists k name, x = SyntaxError (InvalidVariableName k name)).

(** * Properties *)

(** ** Strings *)

Lemma get_drop (s : string) (i : nat) (c : ascii) :
  String.get i s = Some c -> Str.drop i s = String c (Str.drop (S i) s).
Proof.
  revert i; induction s as [|d s IH]; intros [|i] Hg; simpl in *;
    try discriminate.
  - now inversion Hg.
  - rewrite (IH i Hg). now destruct s.
Qed.

Lemma length_drop (s : string) (i : nat) :
  String.length (Str.drop i s) = (String.length s - i)%nat.
Proof.
  revert i; induction s as [|d s IH]; intros [|i]; simpl; auto.
Qed.

Lemma get_lt (s : string) (i : nat) (c : ascii) :
  String.get i s = Some c -> (i < String.length s)%nat.
Proof.
  revert i; induction s as [|d s IH]; intros [|i] Hg; simpl in *;
    try discriminate; try lia.
  apply IH in Hg. lia.
Qed.

Lemma span_le (p : ascii -> bool) (s : string) :
  (Str.span p s <= String.length s)%nat.
Proof.
  induction s as [|d s IH]; simpl; [lia|]. destruct (p d); lia.
Qed.

Lemma substring_all (s : string) : substring 0 (String.length s) s = s.
Proof. induction s as [|c s IH]; simpl; [reflexivity|now rewrite IH]. Qed.

(** The first character of an identifier belongs to no other alternative
    of the token regex. *)
Lemma id_start_class (c : ascii) :
  is_id_start c = true ->
  Str.isspace c = false /\ Ascii.eqb c "(" = false /\ Ascii.eqb c ")" = false
  /\ Ascii.eqb c "=" = false.
Proof.
  destruct c as [[] [] [] [] [] [] [] []]; vm_compute; intros Hc;
    try discriminate Hc; repeat split.
Qed.

(** ** Tokenizer *)

(** A match of [TOKEN_RE] at [i] ends after [i] and inside the text. *)
Lemma TOKEN_RE_match_progress (expr : string) (i : nat) (g : group) (j : nat) :
  TOKEN_RE_match expr i = Some (g, j) -> (i < j <= String.length expr)%nat.
Proof.
  unfold TOKEN_RE_match.
  destruct (String.get i expr) as [c|] eqn:Hg; [|discriminate].
  pose proof (get_lt _ _ _ Hg) as Hlt.
  pose proof (get_drop _ _ _ Hg) as Hd.
  pose proof (span_le is_id_char (Str.drop (S i) expr)) as Hid.
  rewrite length_drop in Hid.
  set (rest := Str.drop (S i) expr) in *.
  destruct (Str.isspace c) eqn:Hsp.
  - intros [= <- <-]. rewrite Hd. cbn [Str.span]. rewrite Hsp.
    pose proof (span_le Str.isspace rest) as Hws.
    unfold rest in Hws at 2. rewrite length_drop in Hws. lia.
  - repeat match goal with
           | |- context [if ?b then _ else _] => destruct b
           end; intros [= <- <-]; lia.
Qed.

Lemma tokenize_loop_enough_fuel (expr : string) (fuel i : nat)
    (tokens : list Token) :
  (String.length expr - i <= fuel)%nat ->
  tokenize_loop fuel expr i tokens <> OutOfFuel.
Proof.
  revert i tokens; induction fuel as [|fuel IH]; intros i tokens Hfuel; simpl.
  - destruct (Nat.ltb_spec i (String.length expr)); [lia|discriminate].
  - destruct (Nat.ltb_spec i (String.length expr)); [|discriminate].
    destruct (TOKEN_RE_match expr i) as [[g j]|] eqn:Hm; [|discriminate].
    apply TOKEN_RE_match_progress in Hm. apply IH. lia.
Qed.

Lemma tokenize_loop_more_fuel (expr : string) (fuel fuel' i : nat)
    (tokens : list Token) :
  tokenize_loop fuel expr i tokens <> OutOfFuel -> (fuel <= fuel')%nat ->
  tokenize_loop fuel' expr i tokens = tokenize_loop fuel expr i tokens.
Proof.
  revert fuel' i tokens; induction fuel as [|fuel IH];
    intros fuel' i tokens Hr Hle; simpl in *.
  - destruct (Nat.ltb_spec i (String.length expr)); [congruence|].
    destruct fuel'; simpl;
      destruct (Nat.ltb_spec i (String.length expr)); auto; lia.
  - destruct fuel' as [|fuel']; [lia|]. simpl.
    destruct (i <? String.length expr)%nat; auto.
    destruct (TOKEN_RE_match expr i) as [[g j]|]; auto.
    apply IH; [assumption|lia].
Qed.

Lemma tokenize_expr_not_OutOfFuel (expr : string) :
  tokenize_expr expr <> OutOfFuel.
Proof. apply tokenize_loop_enough_fuel. lia. Qed.

Lemma tokenize_loop_end (expr : string) (fuel i : nat) (tokens : list Token) :
  (String.length expr <= i)%nat -> tokenize_loop fuel expr i tokens = Ok tokens.
Proof.
  intros Hle. destruct fuel; simpl;
    destruct (Nat.ltb_spec i (String.length expr)); auto; lia.
Qed.

(** A lone identifier that is neither a number word nor an operator word
    is one Identifier token. *)
Lemma tokenize_identifier (name : string) :
  is_identifier name = true ->
  NUM_WORDS !! Str.lower name = None -> OP_WORDS !! Str.lower name = None ->
  tokenize_expr name = Ok [mkToken "ID" name].
Proof.
  destruct name as [|c rest]; [discriminate|]. unfold is_identifier.
  intros [Hc Hspan]%andb_prop Hnum Hop.
  apply Nat.eqb_eq in Hspan.
  destruct (id_start_class c Hc) as (Hsp & Hl & Hr & He).
  unfold tokenize_expr. cbn [String.length tokenize_loop Nat.ltb Nat.leb].
  unfold TOKEN_RE_match. cbn [String.get Str.drop].
  rewrite Hsp, Hl, Hr, He, Hc, Hspan.
  unfold Str.slice. rewrite Nat.sub_0_r. cbn [substring Nat.add].
  rewrite substring_all. cbn [token_of]. rewrite Hnum, Hop.
  apply tokenize_loop_end. simpl. lia.
Qed.

(** C10.  Tokenization terminates on every text: a match of the token regex
    at [i] ends strictly after [i] and within the text; where nothing
    matches the loop raises the lex error at once; so a loop started at [i]
    with [len(expr) - i] iterations allowed never runs out of them, more
    iterations change nothing, and [tokenize_expr] returns tokens or
    raises. *)
Theorem tokenize_expr_terminates (expr : string) :
  (forall i g j,
      TOKEN_RE_match expr i = Some (g, j) -> (i < j <= String.length expr)%nat)
  /\ (forall fuel i tokens,
      (i < String.length expr)%nat -> TOKEN_RE_match expr i = None ->
      tokenize_loop (S fuel) expr i tokens
      = Raise (SyntaxError (UnexpectedCharacter i (Str.slice i (S i) expr))))
  /\ (forall fuel i tokens,
      (String.length expr - i <= fuel)%nat ->
      tokenize_loop fuel expr i tokens
      = tokenize_loop (String.length expr - i) expr i tokens)
  /\ ((exists tokens, tokenize_expr expr = Ok tokens)
      \/ (exists e, tokenize_expr expr = Raise e)).
Proof.
  repeat split.
  - eapply TOKEN_RE_match_progress; eassumption.
  - eapply TOKEN_RE_match_progress; eassumption.
  - intros fuel i tokens Hlt Hm. simpl.
    destruct (Nat.ltb_spec i (String.length expr)); [|lia].
    now rewrite Hm.
  - intros fuel i tokens Hfuel. apply tokenize_loop_more_fuel; [|assumption].
    apply tokenize_loop_enough_fuel. lia.
  - pose proof (tokenize_expr_not_OutOfFuel expr) as Hne.
    destruct (tokenize_expr expr) as [tokens|e|]; [left|right|]; eauto.
    congruence.
Qed.

(** ** Parser *)

Lemma kind_is_true (t : Token) (k : string) :
  kind_is t k = true <-> kind t = k.
Proof. apply String.eqb_eq. Qed.

Lemma kind_is_false (t : Token) (k : string) :
  kind_is t k = false <-> kind t <> k.
Proof. apply String.eqb_neq. Qed.

Lemma rpn_kind_structural (t : Token) :
  rpn_kind t ->
  kind t <> "LPAREN" /\ kind t <> "RPAREN" /\ kind t <> "EQ".
Proof. intros [-> | [-> | ->]]; repeat split; discriminate. Qed.

Section ParserInvariant.

Lemma parser_inv_emit (out stack : list Token) (top : Token) :
  parser_inv out (top :: stack) -> kind top <> "LPAREN" ->
  parser_inv (out ++ [top]) stack.
Proof.
  intros [Hout Hst] Hk. inversion Hst as [|? ? [Hop|Hlp] Hrest]; subst.
  - split; [|assumption]. apply Forall_app. split; [assumption|].
    constructor; [|constructor]. right; right; assumption.
  - contradiction.
Qed.

Lemma pop_operators_inv (p1 : Z) (assoc1 : string)
    (out stack out' stack' : list Token) :
  parser_inv out stack ->
  pop_operators p1 assoc1 out stack = Ok (out', stack') ->
  parser_inv out' stack'.
Proof.
  revert out; induction stack as [|top rest IH]; intros out Hinv; simpl.
  - now intros [= <- <-].
  - destruct (kind_is top "OP") eqn:Hk; [|now intros [= <- <-]].
    destruct (PRECEDENCE !! value top) as [[p2 a2]|]; [|discriminate].
    destruct (_ || _); [|now intros [= <- <-]].
    apply IH, parser_inv_emit; [assumption|].
    apply kind_is_true in Hk. rewrite Hk. discriminate.
Qed.

Lemma pop_to_lparen_inv (out stack out' stack' : list Token) :
  parser_inv out stack ->
  pop_to_lparen out stack = (out', stack') ->
  parser_inv out' stack'.
Proof.
  revert out; induction stack as [|top rest IH]; intros out Hinv; simpl.
  - now intros [= <- <-].
  - destruct (kind_is top "LPAREN") eqn:Hk; simpl; [now intros [= <- <-]|].
    apply IH, parser_inv_emit; [assumption|]. now apply kind_is_false.
Qed.

Lemma to_rpn_step_inv (t : Token) (out stack out' stack' : list Token) :
  parser_inv out stack ->
  to_rpn_step t out stack = Ok (out', stack') ->
  parser_inv out' stack'.
Proof.
  intros Hinv. unfold to_rpn_step.
  destruct (kind_is t "NUM") eqn:Hnum; simpl.
  { intros [= <- <-]. destruct Hinv as [Hout Hst]. split; [|assumption].
    apply Forall_app. split; [assumption|]. constructor; [|constructor].
    left. now apply kind_is_true. }
  destruct (kind_is t "ID") eqn:Hid.
  { intros [= <- <-]. destruct Hinv as [Hout Hst]. split; [|assumption].
    apply Forall_app. split; [assumption|]. constructor; [|constructor].
    right; left. now apply kind_is_true. }
  destruct (kind_is t "OP") eqn:Hop.
  { destruct (PRECEDENCE !! value t) as [[p1 assoc1]|]; [|discriminate].
    destruct (pop_operators p1 assoc1 out stack) as [[o s]|e|] eqn:Hpop;
      simpl; try discriminate.
    intros [= <- <-].
    destruct (pop_operators_inv _ _ _ _ _ _ Hinv Hpop) as [Ho Hs].
    split; [assumption|]. constructor; [|assumption].
    left. now apply kind_is_true. }
  destruct (kind_is t "LPAREN") eqn:Hlp.
  { intros [= <- <-]. destruct Hinv as [Hout Hst]. split; [assumption|].
    constructor; [|assumption]. right. now apply kind_is_true. }
  destruct (kind_is t "RPAREN") eqn:Hrp; [|discriminate].
  destruct (pop_to_lparen out stack) as [o s] eqn:Hpop.
  destruct (pop_to_lparen_inv _ _ _ _ Hinv Hpop) as [Ho Hs].
  destruct s as [|top rest]; [discriminate|].
  destruct (kind_is top "LPAREN"); simpl; [|discriminate].
  intros [= <- <-]. split; [assumption|]. now inversion Hs.
Qed.

Lemma to_rpn_loop_inv (tokens out stack out' stack' : list Token) :
  parser_inv out stack ->
  to_rpn_loop tokens out stack = Ok (out', stack') ->
  parser_inv out' stack'.
Proof.
  revert out stack; induction tokens as [|t tokens IH];
    intros out stack Hinv; simpl.
  - now intros [= <- <-].
  - destruct (to_rpn_step t out stack) as [[o s]|e|] eqn:Hstep; simpl;
      try discriminate.
    apply IH. eapply to_rpn_step_inv; eassumption.
Qed.

Lemma drain_inv (out stack rpn : list Token) :
  parser_inv out stack -> drain out stack = Ok rpn -> Forall rpn_kind rpn.
Proof.
  revert out; induction stack as [|top rest IH]; intros out Hinv; simpl.
  - intros [= <-]. apply Hinv.
  - destruct (kind_is top "LPAREN") eqn:Hlp; simpl; [discriminate|].
    destruct (kind_is top "RPAREN"); [discriminate|].
    apply IH, parser_inv_emit; [assumption|]. now apply kind_is_false.
Qed.

End ParserInvariant.

(** The parser's loops run over lists: they return or raise. *)
Lemma pop_operators_returns (p1 : Z) (assoc1 : string) (out stack : list Token) :
  pop_operators p1 assoc1 out stack <> OutOfFuel.
Proof.
  revert out; induction stack as [|top rest IH]; intros out; simpl;
    [discriminate|].
  destruct (kind_is top "OP"); [|discriminate].
  destruct (PRECEDENCE !! value top) as [[p2 a2]|]; [|discriminate].
  destruct (_ || _); [apply IH|discriminate].
Qed.

Lemma to_rpn_step_returns (t : Token) (out stack : list Token) :
  to_rpn_step t out stack <> OutOfFuel.
Proof.
  unfold to_rpn_step.
  destruct (_ || _); [discriminate|].
  destruct (kind_is t "OP").
  { destruct (PRECEDENCE !! value t) as [[p1 assoc1]|]; [|discriminate].
    pose proof (pop_operators_returns p1 assoc1 out stack) as Hp.
    destruct (pop_operators p1 assoc1 out stack) as [[o s]| |];
      simpl; congruence. }
  destruct (kind_is t "LPAREN"); [discriminate|].
  destruct (kind_is t "RPAREN"); [|discriminate].
  destruct (pop_to_lparen out stack) as [o [|top rest]]; [discriminate|].
  destruct (negb _); discriminate.
Qed.

Lemma drain_returns (out stack : list Token) : drain out stack <> OutOfFuel.
Proof.
  revert out; induction stack as [|top rest IH]; intros out; simpl;
    [discriminate|].
  destruct (_ || _); [discriminate|apply IH].
Qed.

Lemma to_rpn_returns (tokens : list Token) : to_rpn tokens <> OutOfFuel.
Proof.
  unfold to_rpn.
  assert (Hloop : forall out stack, to_rpn_loop tokens out stack <> OutOfFuel).
  { induction tokens as [|t tokens IH]; intros out stack; simpl;
      [discriminate|].
    pose proof (to_rpn_step_returns t out stack) as Hs.
    destruct (to_rpn_step t out stack) as [[o s]| |]; simpl;
      [apply IH|discriminate|congruence]. }
  specialize (Hloop [] []).
  destruct (to_rpn_loop tokens [] []) as [[out stack]| |]; simpl;
    [apply drain_returns|discriminate|congruence].
Qed.

(** C2.  Whatever tokens the parser accepts, each token of its postfix
    output is a Number, an Identifier or an Operator; none is a parenthesis
    or an equals sign. *)
Theorem to_rpn_output_kinds (tokens rpn : list Token) :
  to_rpn tokens = Ok rpn ->
  Forall (fun t => rpn_kind t /\ kind t <> "LPAREN" /\ kind t <> "RPAREN"
                   /\ kind t <> "EQ") rpn.
Proof.
  unfold to_rpn.
  destruct (to_rpn_loop tokens [] []) as [[out stack]|e|] eqn:Hloop; simpl;
    try discriminate.
  intros Hdrain.
  assert (Hinv : parser_inv out stack).
  { eapply to_rpn_loop_inv; [|eassumption]. split; constructor. }
  eapply Forall_impl; [eapply drain_inv; eassumption|].
  intros t Ht. split; [assumption|]. now apply rpn_kind_structural.
Qed.

(** C2, at an instance: "( one plus x ) times two" loses its parentheses. *)
Lemma to_rpn_output_kinds_witness :
  to_rpn paren_tokens
  = Ok [mkToken "NUM" "1"; mkToken "ID" "x"; mkToken "OP" "+";
        mkToken "NUM" "2"; mkToken "OP" "*"]
  /\ Forall (fun t => rpn_kind t /\ kind t <> "LPAREN" /\ kind t <> "RPAREN"
                      /\ kind t <> "EQ")
       [mkToken "NUM" "1"; mkToken "ID" "x"; mkToken "OP" "+";
        mkToken "NUM" "2"; mkToken "OP" "*"].
Proof.
  split; [reflexivity|].
  apply (to_rpn_output_kinds paren_tokens). reflexivity.
Defined.

(** C6.  Unbalanced parentheses are a [SyntaxError] in both directions.  In
    "( one plus two" the loop over the tokens ends with the left
    parenthesis still on the stack, and the final loop raises when it meets
    it; in "one plus two )" the right parenthesis finds no left parenthesis
    on the stack and the loop over the tokens raises. *)
Theorem unbalanced_parentheses_fail :
  (tokenize_expr "( one plus two"
   = Ok [mkToken "LPAREN" "("; mkToken "NUM" "1"; mkToken "OP" "+";
         mkToken "NUM" "2"]
   /\ to_rpn_loop [mkToken "LPAREN" "("; mkToken "NUM" "1"; mkToken "OP" "+";
                   mkToken "NUM" "2"] [] []
      = Ok ([mkToken "NUM" "1"; mkToken "NUM" "2"],
            [mkToken "OP" "+"; mkToken "LPAREN" "("])
   /\ to_rpn [mkToken "LPAREN" "("; mkToken "NUM" "1"; mkToken "OP" "+";
              mkToken "NUM" "2"]
      = Raise (SyntaxError MismatchedParentheses))
  /\ (tokenize_expr "one plus two )"
      = Ok [mkToken "NUM" "1"; mkToken "OP" "+"; mkToken "NUM" "2";
            mkToken "RPAREN" ")"]
      /\ to_rpn_loop [mkToken "NUM" "1"; mkToken "OP" "+"; mkToken "NUM" "2";
                      mkToken "RPAREN" ")"] [] []
         = Raise (SyntaxError MismatchedParentheses)
      /\ to_rpn [mkToken "NUM" "1"; mkToken "OP" "+"; mkToken "NUM" "2";
                 mkToken "RPAREN" ")"]
         = Raise (SyntaxError MismatchedParentheses)).
Proof. repeat split; vm_compute; reflexivity. Qed.

(** ** Evaluator *)

Section EvaluatorProperties.

Context (H : host).

Abbreviation val := (number (flonum H)).
Abbreviation env := (gmap string val).

(** C1.  The power operator groups to the right.  A "**" arriving on a
    stacked "**" has equal precedence and right associativity, so nothing
    is popped; "two power three power two" becomes 2 3 2 ** ** and
    evaluates to 2 ** (3 ** 2) = 512, not to (2 ** 3) ** 2 = 64, whatever
    the environment. *)
Theorem power_is_right_associative (e : env) :
  (forall out stack,
      pop_operators 4 "right" out (mkToken "OP" "**" :: stack)
      = Ok (out, mkToken "OP" "**" :: stack))
  /\ (let* tokens := tokenize_expr "two power three power two" in
      to_rpn tokens)
     = Ok [mkToken "NUM" "2"; mkToken "NUM" "3"; mkToken "NUM" "2";
           mkToken "OP" "**"; mkToken "OP" "**"]
  /\ eval_expr H "two power three power two" e = (e, Ok (VInt 512))
  /\ eval_expr H "two power three power two" e <> (e, Ok (VInt 64)).
Proof.
  split; [reflexivity|]. split; [vm_compute; reflexivity|].
  assert (Hv : eval_expr H "two power three power two" e = (e, Ok (VInt 512)))
    by (vm_compute; reflexivity).
  split; [assumption|]. rewrite Hv. intros [=].
Qed.

(** C9.  Multiplication binds tighter than addition: "*" has precedence 3
    and "+" has precedence 2, "two plus three times four" becomes
    2 3 4 * + and evaluates to 14, whatever the environment. *)
Theorem times_binds_tighter_than_plus (e : env) :
  (exists p_times p_plus a_times a_plus,
      PRECEDENCE !! "*" = Some (p_times, a_times)
      /\ PRECEDENCE !! "+" = Some (p_plus, a_plus)
      /\ p_plus < p_times)
  /\ (let* tokens := tokenize_expr "two plus three times four" in
      to_rpn tokens)
     = Ok [mkToken "NUM" "2"; mkToken "NUM" "3"; mkToken "NUM" "4";
           mkToken "OP" "*"; mkToken "OP" "+"]
  /\ eval_expr H "two plus three times four" e = (e, Ok (VInt 14)).
Proof.
  split.
  { exists 3, 2, "left", "left". repeat split; vm_compute; reflexivity. }
  split; vm_compute; reflexivity.
Qed.

(** *** The environment is only read *)

Lemma eval_token_env (t : Token) (st : list val) (e : env) :
  (eval_token H t st e).1 = e.
Proof.
  unfold eval_token.
  destruct (kind_is t "NUM"). { now destruct (Str.to_int (value t)). }
  destruct (kind_is t "ID").
  { unfold and_then, env_contains, env_getitem. simpl.
    destruct (e !! value t) eqn:Hget; simpl; rewrite ?Hget; reflexivity. }
  now destruct (kind_is t "OP").
Qed.

(** One iteration of the evaluator's loop, the environment left out. *)
Lemma eval_loop_cons (t : Token) (rpn : list Token) (st : list val) (e : env) :
  eval_loop H (t :: rpn) st e
  = match (eval_token H t st e).2 with
    | Ok st' => eval_loop H rpn st' e
    | Raise x => (e, Raise x)
    | OutOfFuel => (e, OutOfFuel)
    end.
Proof.
  simpl. unfold and_then. pose proof (eval_token_env t st e) as He.
  destruct (eval_token H t st e) as [e' r]. simpl in *. subst e'.
  now destruct r.
Qed.

Lemma eval_loop_env (rpn : list Token) (st : list val) (e : env) :
  (eval_loop H rpn st e).1 = e.
Proof.
  revert st; induction rpn as [|t rpn IH]; intros st; [reflexivity|].
  rewrite eval_loop_cons. destruct (eval_token H t st e).2; auto.
Qed.

Lemma eval_rpn_unfold (rpn : list Token) (e : env) :
  eval_rpn H rpn e
  = match (eval_loop H rpn [] e).2 with
    | Ok [v] => (e, Ok v)
    | Ok _ => (e, Raise (SyntaxError NotSingleValue))
    | Raise x => (e, Raise x)
    | OutOfFuel => (e, OutOfFuel)
    end.
Proof.
  unfold eval_rpn, and_then. pose proof (eval_loop_env rpn [] e) as He.
  destruct (eval_loop H rpn [] e) as [e' r]. simpl in *. subst e'.
  destruct r as [[|v [|w st]]| |]; reflexivity.
Qed.

Lemma eval_rpn_env (rpn : list Token) (e : env) : (eval_rpn H rpn e).1 = e.
Proof.
  rewrite eval_rpn_unfold.
  destruct (eval_loop H rpn [] e).2 as [[|v [|w st]]| |]; reflexivity.
Qed.

Lemma eval_expr_env (expr : string) (e : env) : (eval_expr H expr e).1 = e.
Proof.
  unfold eval_expr, and_then, lift.
  destruct (tokenize_expr expr) as [tokens| |]; try reflexivity.
  destruct (to_rpn tokens) as [rpn| |]; try reflexivity.
  apply eval_rpn_env.
Qed.

(** C3.  [eval_rpn] leaves the environment as it found it, for every
    postfix sequence and every environment, whether it returns a value or
    raises: the dict after the call is the dict before it, binding by
    binding. *)
Theorem eval_rpn_leaves_env_unchanged (rpn : list Token) (e : env) :
  (eval_rpn H rpn e).1 = e
  /\ forall name, (eval_rpn H rpn e).1 !! name = e !! name.
Proof.
  pose proof (eval_rpn_env rpn e) as He. split; [assumption|].
  intros name. now rewrite He.
Qed.

(** *** The value stack *)

Lemma of_host_not_syntax (r : arithmetic_error + flonum H) (x : syntax_error) :
  of_host H r <> Raise (SyntaxError x).
Proof. destruct r; discriminate. Qed.

Lemma arith_not_syntax (a b : val) (x : syntax_error) :
  add H a b <> Raise (SyntaxError x)
  /\ sub H a b <> Raise (SyntaxError x)
  /\ mul H a b <> Raise (SyntaxError x)
  /\ truediv H a b <> Raise (SyntaxError x)
  /\ pow H a b <> Raise (SyntaxError x).
Proof.
  repeat split; destruct a as [m|f], b as [n|g]; simpl;
    try apply of_host_not_syntax; try discriminate.
  - destruct (n =? 0); [discriminate|apply of_host_not_syntax].
  - destruct (0 <=? n); [discriminate|apply of_host_not_syntax].
Qed.

Lemma push_result_syntax (r : outcome val) (st : list val) (x : syntax_error) :
  (let* v := r in Ok (v :: st)) = Raise (SyntaxError x) ->
  r = Raise (SyntaxError x).
Proof. destruct r; simpl; congruence. Qed.

(** The only syntax errors one token can raise. *)
Lemma eval_token_syntax (t : Token) (st : list val) (e : env) (x : syntax_error) :
  (eval_token H t st e).2 = Raise (SyntaxError x) ->
  (x = NotEnoughValues /\ kind t = "OP" /\ (length st < 2)%nat)
  \/ (x = UnknownOperator (value t) /\ kind t = "OP" /\ (2 <= length st)%nat)
  \/ (x = UnexpectedTokenInRPN t /\ kind t <> "NUM" /\ kind t <> "ID"
       /\ kind t <> "OP").
Proof.
  unfold eval_token.
  destruct (kind_is t "NUM") eqn:Hnum.
  { destruct (Str.to_int (value t)); discriminate. }
  destruct (kind_is t "ID") eqn:Hid.
  { unfold and_then, env_contains, env_getitem. simpl.
    destruct (e !! value t) eqn:Hget; simpl; rewrite ?Hget; discriminate. }
  destruct (kind_is t "OP") eqn:Hop.
  - apply kind_is_true in Hop.
    destruct st as [|b [|a st2]]; simpl.
    + intros [= <-]. left. repeat split; [assumption|lia].
    + intros [= <-]. left. repeat split; [assumption|lia].
    + destruct (arith_not_syntax a b x) as (Ha & Hs & Hm & Hd & Hp).
      repeat match goal with
             | |- context [if ?c then _ else _] => destruct c
             end;
        try (intros Hr; apply push_result_syntax in Hr; contradiction).
      intros [= <-]. right; left. repeat split; [assumption|lia].
  - intros [= <-]. right; right.
    repeat split; apply kind_is_false; assumption.
Qed.

Lemma eval_token_underflow (t : Token) (st : list val) (e : env) :
  (eval_token H t st e).2 = Raise (SyntaxError NotEnoughValues)
  <-> kind t = "OP" /\ (length st < 2)%nat.
Proof.
  split.
  - intros Hr. apply eval_token_syntax in Hr as [Hr|[Hr|Hr]];
      destruct Hr as (Hx & Hk & Hlen); try discriminate. auto.
  - intros [Hk Hlen]. unfold eval_token, kind_is. rewrite Hk. simpl.
    destruct st as [|b [|a st2]]; simpl in *; try reflexivity. lia.
Qed.

(** The loop raises "Not enough values" exactly when it reaches an
    operator with fewer than two values on the stack. *)
Lemma eval_loop_underflow (rpn : list Token) (st0 : list val) (e : env) :
  (eval_loop H rpn st0 e).2 = Raise (SyntaxError NotEnoughValues)
  <-> exists pre t post st,
      rpn = pre ++ t :: post /\ kind t = "OP"
      /\ (eval_loop H pre st0 e).2 = Ok st /\ (length st < 2)%nat.
Proof.
  revert st0; induction rpn as [|t rpn IH]; intros st0.
  { split; [discriminate|].
    intros (pre & t & post & st & Heq & _). now destruct pre. }
  rewrite eval_loop_cons.
  destruct (eval_token H t st0 e).2 as [st1|x|] eqn:Ht.
  - rewrite IH. split.
    + intros (pre & t' & post & st & -> & Hk & Hpre & Hlen).
      exists (t :: pre), t', post, st. rewrite eval_loop_cons, Ht. auto.
    + intros (pre & t' & post & st & Heq & Hk & Hpre & Hlen).
      destruct pre as [|t0 pre]; simpl in Heq; injection Heq as <- ->.
      * simpl in Hpre. injection Hpre as <-.
        assert (Hr : (eval_token H t st0 e).2
                     = Raise (SyntaxError NotEnoughValues))
          by (apply eval_token_underflow; auto).
        congruence.
      * rewrite eval_loop_cons, Ht in Hpre. exists pre, t', post, st. auto.
  - simpl. split.
    + intros [= ->]. apply eval_token_underflow in Ht as [Hk Hlen].
      exists [], t, rpn, st0. auto.
    + intros (pre & t' & post & st & Heq & Hk & Hpre & Hlen).
      destruct pre as [|t0 pre]; simpl in Heq; injection Heq as <- ->.
      * simpl in Hpre. injection Hpre as <-.
        rewrite <- Ht. apply eval_token_underflow; auto.
      * rewrite eval_loop_cons, Ht in Hpre. discriminate.
  - simpl. split; [discriminate|].
    intros (pre & t' & post & st & Heq & Hk & Hpre & Hlen).
    destruct pre as [|t0 pre]; simpl in Heq; injection Heq as <- ->.
    * simpl in Hpre. injection Hpre as <-.
      assert (Hr : (eval_token H t st0 e).2
                   = Raise (SyntaxError NotEnoughValues))
        by (apply eval_token_underflow; auto).
      congruence.
    * rewrite eval_loop_cons, Ht in Hpre. discriminate.
Qed.

Lemma eval_loop_not_single (rpn : list Token) (st0 : list val) (e : env) :
  (eval_loop H rpn st0 e).2 <> Raise (SyntaxError NotSingleValue).
Proof.
  revert st0; induction rpn as [|t rpn IH]; intros st0; [discriminate|].
  rewrite eval_loop_cons.
  destruct (eval_token H t st0 e).2 as [st1|x|] eqn:Ht; simpl;
    [apply IH| |discriminate].
  intros [= ->]. apply eval_token_syntax in Ht as [Hr|[Hr|Hr]];
    destruct Hr as (Hx & _); discriminate.
Qed.

(** C7.  The two "malformed expression" errors of [eval_rpn] and the
    shape of the value stack.  Popping from an empty stack raises "Not
    enough values", and the evaluation raises it exactly when the loop
    reaches an operator with fewer than two values on the stack.  It
    raises "did not reduce to a single value" exactly when the loop
    consumes every token and leaves a number of values other than one.
    It returns [v] exactly when the loop consumes every token and leaves
    the single value [v]. *)
Theorem eval_rpn_malformed (rpn : list Token) (e : env) :
  pop_num H [] = Raise (SyntaxError NotEnoughValues)
  /\ ((eval_rpn H rpn e).2 = Raise (SyntaxError NotEnoughValues)
      <-> exists pre t post st,
          rpn = pre ++ t :: post /\ kind t = "OP"
          /\ (eval_loop H pre [] e).2 = Ok st /\ (length st < 2)%nat)
  /\ ((eval_rpn H rpn e).2 = Raise (SyntaxError NotSingleValue)
      <-> exists st,
          (eval_loop H rpn [] e).2 = Ok st /\ length st <> 1%nat)
  /\ (forall v,
         (eval_rpn H rpn e).2 = Ok v <-> (eval_loop H rpn [] e).2 = Ok [v]).
Proof.
  split; [reflexivity|]. rewrite <- eval_loop_underflow.
  rewrite eval_rpn_unfold.
  pose proof (eval_loop_not_single rpn [] e) as Hns.
  destruct (eval_loop H rpn [] e).2 as [[|v [|w st]]|x|]; simpl in *;
    (split; [|split; [|intros v0]]); split; intros Hyp;
    try discriminate; try congruence;
    try (destruct Hyp as (st' & [= <-] & Hlen); simpl in Hlen; congruence);
    try (destruct Hyp as (st' & [=] & Hlen)).
  all: eexists; split; [reflexivity|simpl; lia].
Qed.

(** *** Names *)

(** C8.  An identifier that the environment does not bind raises
    [NameError] with its name: as the one token of a postfix sequence,
    and as an expression made of that identifier alone (a word that is
    neither a number word nor an operator word); "y" in the empty
    environment is the instance the specification tests. *)
Theorem undefined_variable (name : string) (e : env) :
  e !! name = None ->
  eval_rpn H [mkToken "ID" name] e = (e, Raise (NameError name))
  /\ (is_identifier name = true ->
      NUM_WORDS !! Str.lower name = None ->
      OP_WORDS !! Str.lower name = None ->
      eval_expr H name e = (e, Raise (NameError name)))
  /\ eval_expr H "y" ∅ = (∅, Raise (NameError "y")).
Proof.
  intros Hnone.
  assert (Hrpn : eval_rpn H [mkToken "ID" name] e = (e, Raise (NameError name))).
  { rewrite eval_rpn_unfold, eval_loop_cons.
    unfold eval_token, kind_is. cbn [kind value].
    change (String.eqb "ID" "NUM") with false.
    change (String.eqb "ID" "ID") with true.
    unfold and_then, env_contains. cbn [negb]. now rewrite Hnone. }
  split; [assumption|]. split; [|vm_compute; reflexivity].
  intros Hid Hnum Hop. unfold eval_expr, and_then, lift.
  rewrite (tokenize_identifier name Hid Hnum Hop).
  change (to_rpn [mkToken "ID" name]) with (Ok [mkToken "ID" name]).
  assumption.
Qed.

(** *** Integer operands *)

Lemma eval_token_pow_ints (a b : Z) (st : list val) (e : env) :
  eval_token H (mkToken "OP" "**") (VInt b :: VInt a :: st) e
  = (e, let* r := (if 0 <=? b then Ok (VInt (a ^ b))
                   else of_host H (int_pow_neg H a b)) in
        Ok (r :: st)).
Proof. reflexivity. Qed.

Lemma eval_token_truediv_ints (a b : Z) (st : list val) (e : env) :
  eval_token H (mkToken "OP" "/") (VInt b :: VInt a :: st) e
  = (e, let* r := (if b =? 0 then Raise (ArithmeticError ZeroDivisionError)
                   else of_host H (int_truediv H a b)) in
        Ok (r :: st)).
Proof. reflexivity. Qed.

Lemma of_host_push (r : arithmetic_error + flonum H) (st : list val) :
  (exists x, (let* v := of_host H r in Ok (v :: st)) = Ok (VFloat x :: st))
  \/ (exists err, (let* v := of_host H r in Ok (v :: st))
                  = Raise (ArithmeticError err)).
Proof. destruct r as [err|x]; [right|left]; eauto. Qed.

(** C5, as the code has it.  With two int operands, with [b] popped
    first and [a] second: "+", "-" and "*" push the int [a + b], [a - b],
    [a * b]; "**" pushes the int [a ** b] when [b] is not negative, and
    with a negative [b] it pushes a float or raises an arithmetic error;
    "/" pushes a float or raises an arithmetic error, never an int. *)
Theorem int_operands_results (a b : Z) (st : list val) (e : env) :
  eval_token H (mkToken "OP" "+") (VInt b :: VInt a :: st) e
  = (e, Ok (VInt (a + b) :: st))
  /\ eval_token H (mkToken "OP" "-") (VInt b :: VInt a :: st) e
     = (e, Ok (VInt (a - b) :: st))
  /\ eval_token H (mkToken "OP" "*") (VInt b :: VInt a :: st) e
     = (e, Ok (VInt (a * b) :: st))
  /\ (0 <= b ->
      eval_token H (mkToken "OP" "**") (VInt b :: VInt a :: st) e
      = (e, Ok (VInt (a ^ b) :: st)))
  /\ (b < 0 ->
      (exists x, eval_token H (mkToken "OP" "**") (VInt b :: VInt a :: st) e
                 = (e, Ok (VFloat x :: st)))
      \/ (exists err,
             eval_token H (mkToken "OP" "**") (VInt b :: VInt a :: st) e
             = (e, Raise (ArithmeticError err))))
  /\ ((exists x, eval_token H (mkToken "OP" "/") (VInt b :: VInt a :: st) e
                 = (e, Ok (VFloat x :: st)))
      \/ (exists err,
             eval_token H (mkToken "OP" "/") (VInt b :: VInt a :: st) e
             = (e, Raise (ArithmeticError err)))).
Proof.
  split; [reflexivity|]. split; [reflexivity|]. split; [reflexivity|].
  rewrite eval_token_pow_ints, eval_token_truediv_ints.
  split; [|split].
  - intros Hb. apply Z.leb_le in Hb. now rewrite Hb.
  - intros Hb. apply Z.leb_gt in Hb. rewrite Hb.
    destruct (of_host_push (int_pow_neg H a b) st) as [[x ->]|[err ->]];
      eauto.
  - destruct (b =? 0); [right; eauto|].
    destruct (of_host_push (int_truediv H a b) st) as [[x ->]|[err ->]];
      eauto.
Qed.

(** *** Statements *)

Lemma of_host_returns (r : arithmetic_error + flonum H) :
  of_host H r <> OutOfFuel.
Proof. destruct r; discriminate. Qed.

Lemma arith_returns (a b : val) :
  add H a b <> OutOfFuel /\ sub H a b <> OutOfFuel /\ mul H a b <> OutOfFuel
  /\ truediv H a b <> OutOfFuel /\ pow H a b <> OutOfFuel.
Proof.
  repeat split; destruct a as [m|f], b as [n|g]; simpl;
    try apply of_host_returns; try discriminate.
  - destruct (n =? 0); [discriminate|apply of_host_returns].
  - destruct (0 <=? n); [discriminate|apply of_host_returns].
Qed.

Lemma push_result_returns (r : outcome val) (st : list val) :
  r <> OutOfFuel -> (let* v := r in Ok (v :: st)) <> OutOfFuel.
Proof. destruct r; simpl; congruence. Qed.

Lemma eval_token_returns (t : Token) (st : list val) (e : env) :
  (eval_token H t st e).2 <> OutOfFuel.
Proof.
  unfold eval_token.
  destruct (kind_is t "NUM"). { destruct (Str.to_int (value t)); discriminate. }
  destruct (kind_is t "ID").
  { unfold and_then, env_contains, env_getitem. simpl.
    destruct (e !! value t) eqn:Hget; simpl; rewrite ?Hget; discriminate. }
  destruct (kind_is t "OP"); [|discriminate].
  destruct st as [|b [|a st2]]; [discriminate|discriminate|].
  destruct (arith_returns a b) as (Ha & Hs & Hm & Hd & Hp).
  unfold lift. cbn [pop_num bind snd].
  repeat match goal with
         | |- context [if ?c then _ else _] => destruct c
         end; try discriminate; now apply push_result_returns.
Qed.

Lemma eval_expr_returns (expr : string) (e : env) :
  (eval_expr H expr e).2 <> OutOfFuel.
Proof.
  unfold eval_expr, and_then, lift.
  pose proof (tokenize_expr_not_OutOfFuel expr) as Htok.
  destruct (tokenize_expr expr) as [tokens| |]; try (simpl; congruence).
  pose proof (to_rpn_returns tokens) as Hrpn.
  destruct (to_rpn tokens) as [rpn| |]; try (simpl; congruence).
  rewrite eval_rpn_unfold. clear Htok Hrpn.
  assert (Hloop : forall st, (eval_loop H rpn st e).2 <> OutOfFuel).
  { induction rpn as [|t rpn IH]; intros st; [discriminate|].
    rewrite eval_loop_cons. pose proof (eval_token_returns t st e) as Ht.
    destruct (eval_token H t st e).2; simpl; [apply IH|discriminate|congruence]. }
  specialize (Hloop []).
  destruct (eval_loop H rpn [] e).2 as [[|v [|w st]]| |]; simpl; congruence.
Qed.

(** A line that passes the [print] test is neither blank nor a comment. *)
Lemma print_line_not_skipped (line : string) :
  Str.startswith (Str.lower line) "print " = true ->
  String.eqb line "" || Str.startswith line "#" = false.
Proof.
  destruct line as [|c rest]; [discriminate|].
  cbn [Str.lower Str.startswith String.eqb orb].
  destruct (Ascii.eqb "p" (Str.lower_char c)) eqn:Hp; [|discriminate].
  intros _. destruct (Ascii.eqb "#" c) eqn:Hc; [|reflexivity].
  apply Ascii.eqb_eq in Hc. subst c. discriminate Hp.
Qed.

(** C4, as the code has it.  A line whose trimmed text starts, letter
    case aside, with [print] and one space character is a print
    statement: the runner evaluates the trimmed remainder against the
    current environment.  When that returns a value whose text [print] can
    make, the line emits the value and goes on; when it returns an int of
    more than 4300 digits, [print] raises [ValueError] and nothing is
    emitted; when it raises, the line raises the same and nothing is
    emitted.  The environment is left as it was in every case. *)
Theorem print_statement (lineno : nat) (raw : string) (e : env)
    (out : list val) :
  Str.startswith (Str.lower (Str.strip raw)) "print " = true ->
  (exists v,
      eval_expr H (Str.strip (Str.drop 6 (Str.strip raw))) e = (e, Ok v)
      /\ printable H v = true
      /\ run_line H lineno raw (e, out) = ((e, out ++ [v]), Ok tt))
  \/ (exists v,
         eval_expr H (Str.strip (Str.drop 6 (Str.strip raw))) e = (e, Ok v)
         /\ printable H v = false
         /\ run_line H lineno raw (e, out) = ((e, out), Raise StrDigitsError))
  \/ (exists x,
         eval_expr H (Str.strip (Str.drop 6 (Str.strip raw))) e = (e, Raise x)
         /\ run_line H lineno raw (e, out) = ((e, out), Raise x)).
Proof.
  intros Hprint. unfold run_line.
  rewrite (print_line_not_skipped _ Hprint), Hprint.
  set (expr := Str.strip (Str.drop 6 (Str.strip raw))).
  pose proof (eval_expr_env expr e) as He.
  pose proof (eval_expr_returns expr e) as Hret.
  unfold and_then, on_env, print.
  destruct (eval_expr H expr e) as [e' [v|x|]]; cbn [fst snd] in *; subst e';
    [|right; right; eauto|congruence].
  destruct (printable H v) eqn:Hv; [left|right; left]; eauto.
Qed.

End EvaluatorProperties.

(** C5, as stated, fails: 2 ** -1 is not an int, whatever the floats of the
    interpreter are, neither as one step of the evaluator nor as the
    expression "two power ( zero minus one )". *)
Lemma negative_power_is_not_int :
  ~ exists (H : host) (z : Z),
      (eval_token H (mkToken "OP" "**") [VInt (-1); VInt 2] ∅).2 = Ok [VInt z]
      \/ (eval_expr H "two power ( zero minus one )" ∅).2 = Ok (VInt z).
Proof.
  intros (H & z & [Hr|Hr]).
  - rewrite eval_token_pow_ints in Hr. simpl in Hr.
    destruct (int_pow_neg H 2 (-1)); discriminate.
  - destruct H as [F truediv_ints pow_ints arith].
    vm_compute in Hr. destruct (pow_ints 2 (-1)); discriminate.
Qed.

(** C5, at an instance: 2 ** 3 pushes the int 8. *)
Lemma int_operands_results_witness :
  0 <= 3
  /\ eval_token int_only (mkToken "OP" "**") [VInt 3; VInt 2] env_x
     = (env_x, Ok [VInt (2 ^ 3)]).
Proof.
  split; [lia|].
  destruct (int_operands_results int_only 2 3 [] env_x) as (_ & _ & _ & Hp & _).
  apply Hp. lia.
Defined.

(** C4, as stated, fails on a tab.  The trimmed line [print<TAB>one] is not
    blank, is no comment, and starts with [print] followed by a white-space
    character; its remainder evaluates to 1; yet the runner raises "Unknown
    statement" for line 1 and emits nothing. *)
Lemma print_tab_is_unknown_statement :
  Str.strip tab_print_line = tab_print_line
  /\ String.eqb tab_print_line "" || Str.startswith tab_print_line "#" = false
  /\ Str.startswith (Str.lower tab_print_line) "print" = true
  /\ (exists c, String.get 5 tab_print_line = Some c /\ Str.isspace c = true)
  /\ forall H : host,
      eval_expr H (Str.strip (Str.drop 6 tab_print_line)) ∅ = (∅, Ok (VInt 1))
      /\ run_line H 1 tab_print_line (∅, [])
         = ((∅, []), Raise (SyntaxError (UnknownStatement 1 tab_print_line))).
Proof.
  repeat split; try (vm_compute; reflexivity).
  exists "009"%char. split; reflexivity.
Qed.

(** C4, at an instance: [  PRINT two plus three ] emits 5. *)
Lemma print_statement_witness :
  Str.startswith (Str.lower (Str.strip "  PRINT two plus three ")) "print " = true
  /\ run_line int_only 1 "  PRINT two plus three " (env_x, [VInt 7])
     = ((env_x, [VInt 7] ++ [VInt 5]), Ok tt).
Proof.
  split; [reflexivity|].
  destruct (print_statement int_only 1 "  PRINT two plus three " env_x
              [VInt 7] eq_refl)
    as [(v & Hv & _ & ->)|[(v & Hv & Hp & _)|(x & Hx & _)]].
  - vm_compute in Hv. now injection Hv as <-.
  - vm_compute in Hv. injection Hv as <-. vm_compute in Hp. discriminate Hp.
  - vm_compute in Hx. discriminate Hx.
Defined.

(** C7, at an instance: "1 +" in postfix order reaches its operator with
    one value on the stack. *)
Lemma eval_rpn_malformed_witness :
  (eval_rpn int_only [mkToken "NUM" "1"; mkToken "OP" "+"] env_x).2
  = Raise (SyntaxError NotEnoughValues).
Proof.
  destruct (eval_rpn_malformed int_only [mkToken "NUM" "1"; mkToken "OP" "+"]
              env_x) as (_ & Hunder & _).
  apply Hunder.
  exists [mkToken "NUM" "1"], (mkToken "OP" "+"), [], [VInt 1].
  repeat split. simpl. lia.
Defined.

(** C8, at an instance: [y] where only [x] is bound. *)
Lemma undefined_variable_witness :
  env_x !! "y" = None
  /\ eval_rpn int_only [mkToken "ID" "y"] env_x = (env_x, Raise (NameError "y"))
  /\ eval_expr int_only "y" env_x = (env_x, Raise (NameError "y")).
Proof.
  split; [reflexivity|].
  destruct (undefined_variable int_only "y" env_x eq_refl) as (Hrpn & Hexpr & _).
  split; [exact Hrpn|]. apply Hexpr; reflexivity.
Defined.

(** * Further properties *)

(** ** Tokenizer: the tokens it makes *)

Lemma substring_drop (s : string) (i n : nat) :
  substring i n s = substring 0 n (Str.drop i s).
Proof.
  revert i; induction s as [|c s IH]; intros [|i]; simpl; auto.
  now destruct n.
Qed.

Lemma span_prefix (p : ascii -> bool) (s : string) :
  Str.span p (substring 0 (Str.span p s) s)
  = String.length (substring 0 (Str.span p s) s).
Proof.
  induction s as [|c s IH]; simpl; [reflexivity|].
  destruct (p c) eqn:Hp; simpl; [|reflexivity]. now rewrite Hp, IH.
Qed.

Lemma slice_one (expr : string) (i : nat) (c : ascii) :
  String.get i expr = Some c -> Str.slice i (S i) expr = String c "".
Proof.
  intros Hg. unfold Str.slice. replace (S i - i)%nat with 1%nat by lia.
  rewrite substring_drop, (get_drop _ _ _ Hg). cbn [substring].
  now destruct (Str.drop (S i) expr).
Qed.

(** The text of an identifier match is an identifier. *)
Lemma slice_identifier (expr : string) (i : nat) (c : ascii) :
  String.get i expr = Some c -> is_id_start c = true ->
  is_identifier
    (Str.slice i (S i + Str.span is_id_char (Str.drop (S i) expr)) expr)
  = true.
Proof.
  intros Hg Hc. unfold Str.slice.
  replace (S i + Str.span is_id_char (Str.drop (S i) expr) - i)%nat
    with (S (Str.span is_id_char (Str.drop (S i) expr))) by lia.
  rewrite substring_drop, (get_drop _ _ _ Hg). cbn [substring is_identifier].
  rewrite Hc, span_prefix. cbn [andb]. apply Nat.eqb_refl.
Qed.

Lemma OP_WORDS_PRECEDENCE (w op : string) :
  OP_WORDS !! w = Some op -> is_Some (PRECEDENCE !! op).
Proof.
  intros Hw. apply elem_of_list_to_map_2 in Hw.
  repeat (apply elem_of_cons in Hw as [[= -> ->]|Hw];
          [eexists; reflexivity|]).
  now apply elem_of_nil in Hw.
Qed.

Lemma token_of_lexed (expr : string) (i j : nat) (g : group) :
  TOKEN_RE_match expr i = Some (g, j) ->
  Forall lexed (token_of g (Str.slice i j expr)).
Proof.
  unfold TOKEN_RE_match.
  destruct (String.get i expr) as [c|] eqn:Hg; [|discriminate].
  destruct (Str.isspace c); [intros [= <- <-]; constructor|].
  destruct (Ascii.eqb c "(") eqn:Hl.
  { intros [= <- <-]. apply Ascii.eqb_eq in Hl. subst c.
    rewrite (slice_one _ _ _ Hg). constructor; [|constructor]. do 3 right. now left. }
  destruct (Ascii.eqb c ")") eqn:Hr.
  { intros [= <- <-]. apply Ascii.eqb_eq in Hr. subst c.
    rewrite (slice_one _ _ _ Hg). constructor; [|constructor]. do 4 right. now left. }
  destruct (Ascii.eqb c "=") eqn:He.
  { intros [= <- <-]. apply Ascii.eqb_eq in He. subst c.
    rewrite (slice_one _ _ _ Hg). constructor; [|constructor]. now do 5 right. }
  destruct (is_id_start c) eqn:Hc; [|discriminate].
  intros [= <- <-]. pose proof (slice_identifier _ _ _ Hg Hc) as Hid.
  set (text := Str.slice _ _ _) in *. cbn [token_of].
  destruct (NUM_WORDS !! Str.lower text) as [n|] eqn:Hnum.
  { constructor; [|constructor]. left. split; [reflexivity|]. eauto. }
  destruct (OP_WORDS !! Str.lower text) as [op|] eqn:Hop.
  { constructor; [|constructor]. right; left. split; [reflexivity|].
    exists (Str.lower text). split; [assumption|].
    eapply OP_WORDS_PRECEDENCE; eassumption. }
  constructor; [|constructor]. right; right; left. cbn [kind value]. auto.
Qed.

Lemma tokenize_loop_lexed (expr : string) (fuel i : nat)
    (tokens0 tokens : list Token) :
  Forall lexed tokens0 ->
  tokenize_loop fuel expr i tokens0 = Ok tokens -> Forall lexed tokens.
Proof.
  revert i tokens0; induction fuel as [|fuel IH]; intros i tokens0 H0; simpl.
  - destruct (i <? String.length expr)%nat; [discriminate|]. now intros [= <-].
  - destruct (i <? String.length expr)%nat; [|now intros [= <-]].
    destruct (TOKEN_RE_match expr i) as [[g j]|] eqn:Hm; [|discriminate].
    apply IH. apply Forall_app. split; [assumption|].
    eapply token_of_lexed; eassumption.
Qed.

(** X1.  Every token [tokenize_expr] returns is well formed: a "NUM" whose
    value is the decimal text of a number of [NUM_WORDS], an "OP" whose
    value is an operator of [OP_WORDS] and a key of [PRECEDENCE], an "ID"
    whose value matches the identifier pattern and is no word of the
    vocabulary, or one of the tokens LPAREN "(", RPAREN ")" and EQ "=". *)
Theorem tokenize_expr_lexed (expr : string) (tokens : list Token) :
  tokenize_expr expr = Ok tokens -> Forall lexed tokens.
Proof. apply tokenize_loop_lexed. constructor. Qed.

Lemma tokenize_expr_lexed_witness :
  tokenize_expr "( x1 PLUS two )"
  = Ok [mkToken "LPAREN" "("; mkToken "ID" "x1"; mkToken "OP" "+";
        mkToken "NUM" "2"; mkToken "RPAREN" ")"]
  /\ Forall lexed [mkToken "LPAREN" "("; mkToken "ID" "x1"; mkToken "OP" "+";
                   mkToken "NUM" "2"; mkToken "RPAREN" ")"].
Proof.
  split; [reflexivity|].
  apply (tokenize_expr_lexed "( x1 PLUS two )"). reflexivity.
Defined.

(** ** Parser: what moves where *)

Lemma pop_operators_shape (p1 : Z) (assoc1 : string)
    (out stack out' stack' : list Token) :
  pop_operators p1 assoc1 out stack = Ok (out', stack') ->
  exists moved,
    stack = moved ++ stack' /\ out' = out ++ moved
    /\ Forall (fun t => kind t = "OP") moved.
Proof.
  revert out; induction stack as [|top rest IH]; intros out; simpl.
  { intros [= <- <-]. exists []. rewrite ?app_nil_r. repeat split; constructor. }
  destruct (kind_is top "OP") eqn:Hk;
    [|intros [= <- <-]; exists []; rewrite ?app_nil_r; repeat split; constructor].
  destruct (PRECEDENCE !! value top) as [[p2 a2]|]; [|discriminate].
  destruct (_ || _);
    [|intros [= <- <-]; exists []; rewrite ?app_nil_r; repeat split; constructor].
  intros Hpop. destruct (IH _ Hpop) as (moved & -> & -> & Hops).
  exists (top :: moved). rewrite <- app_assoc. repeat split.
  constructor; [now apply kind_is_true|assumption].
Qed.

Lemma pop_to_lparen_shape (out stack out' stack' : list Token) :
  pop_to_lparen out stack = (out', stack') ->
  exists moved,
    stack = moved ++ stack' /\ out' = out ++ moved
    /\ Forall (fun t => kind t <> "LPAREN") moved
    /\ match stack' with [] => True | lp :: _ => kind lp = "LPAREN" end.
Proof.
  revert out; induction stack as [|top rest IH]; intros out; simpl.
  { intros [= <- <-]. exists []. rewrite ?app_nil_r. repeat split; constructor. }
  destruct (kind_is top "LPAREN") eqn:Hk; simpl.
  { intros [= <- <-]. exists []. rewrite ?app_nil_r. repeat split; auto.
    now apply kind_is_true. }
  intros Hpop. destruct (IH _ Hpop) as (moved & -> & -> & Hm & Hlp).
  exists (top :: moved). rewrite <- app_assoc. repeat split; auto.
  constructor; [now apply kind_is_false|assumption].
Qed.

Lemma drain_shape (out stack rpn : list Token) :
  drain out stack = Ok rpn <->
  rpn = out ++ stack /\ Forall (fun t => is_paren t = false) stack.
Proof.
  revert out; induction stack as [|top rest IH]; intros out; simpl.
  { rewrite app_nil_r. split; [intros [= <-]; auto|intros [-> _]; auto]. }
  fold (is_paren top). destruct (is_paren top) eqn:Hp.
  - split; [discriminate|]. intros [_ Hall]. inversion Hall; congruence.
  - rewrite IH, <- app_assoc. simpl. split.
    + intros [-> Hall]. auto.
    + intros [-> Hall]. inversion Hall; auto.
Qed.

(** One iteration of the parser, case by case. *)
Lemma to_rpn_step_shape (t : Token) (out stack out' stack' : list Token) :
  to_rpn_step t out stack = Ok (out', stack') ->
  (is_operand t = true /\ out' = out ++ [t] /\ stack' = stack)
  \/ (kind t = "OP" /\ is_Some (PRECEDENCE !! value t)
      /\ exists moved rest,
          stack = moved ++ rest /\ out' = out ++ moved /\ stack' = t :: rest
          /\ Forall (fun u => kind u = "OP") moved)
  \/ (kind t = "LPAREN" /\ out' = out /\ stack' = t :: stack)
  \/ (kind t = "RPAREN"
      /\ exists moved lp,
          stack = moved ++ lp :: stack' /\ out' = out ++ moved
          /\ kind lp = "LPAREN"
          /\ Forall (fun u => kind u <> "LPAREN") moved).
Proof.
  unfold to_rpn_step. fold (is_operand t).
  destruct (is_operand t) eqn:Hopd; [intros [= <- <-]; auto|].
  destruct (kind_is t "OP") eqn:Hop.
  { destruct (PRECEDENCE !! value t) as [[p1 assoc1]|] eqn:Hprec;
      [|discriminate].
    destruct (pop_operators p1 assoc1 out stack) as [[o s]| |] eqn:Hpop;
      simpl; try discriminate.
    intros [= <- <-]. right; left. apply kind_is_true in Hop.
    destruct (pop_operators_shape _ _ _ _ _ _ Hpop) as (moved & -> & -> & Hm).
    repeat split; eauto 10. }
  destruct (kind_is t "LPAREN") eqn:Hlp.
  { intros [= <- <-]. right; right; left. apply kind_is_true in Hlp. auto. }
  destruct (kind_is t "RPAREN") eqn:Hrp; [|discriminate].
  destruct (pop_to_lparen out stack) as [o s] eqn:Hpop.
  destruct (pop_to_lparen_shape _ _ _ _ Hpop) as (moved & -> & -> & Hm & Hs).
  destruct s as [|lp rest]; [discriminate|].
  destruct (kind_is lp "LPAREN"); simpl; [|discriminate].
  intros [= <- <-]. right; right; right. apply kind_is_true in Hrp.
  split; [assumption|]. exists moved, lp. auto.
Qed.

Lemma operand_kinds (t : Token) :
  is_operand t = true <-> kind t = "NUM" \/ kind t = "ID".
Proof.
  unfold is_operand. rewrite orb_true_iff, !kind_is_true. reflexivity.
Qed.

Lemma paren_kinds (t : Token) :
  is_paren t = true <-> kind t = "LPAREN" \/ kind t = "RPAREN".
Proof.
  unfold is_paren. rewrite orb_true_iff, !kind_is_true. reflexivity.
Qed.

Lemma stack_kind_no_operand (t : Token) : stack_kind t -> is_operand t = false.
Proof.
  intros Hk. apply not_true_is_false. rewrite operand_kinds.
  destruct Hk as [Hk|Hk]; rewrite Hk; intros [|]; discriminate.
Qed.

Lemma filter_none {A} (P : A -> Prop) `{forall x, Decision (P x)} (l : list A) :
  Forall (fun x => ~ P x) l -> filter P l = [].
Proof.
  induction 1 as [|x l Hx Hl IH]; [reflexivity|].
  rewrite filter_cons_False; assumption.
Qed.

Lemma filter_all {A} (P : A -> Prop) `{forall x, Decision (P x)} (l : list A) :
  Forall P l -> filter P l = l.
Proof.
  induction 1 as [|x l Hx Hl IH]; [reflexivity|].
  rewrite filter_cons_True by assumption. now rewrite IH.
Qed.

Lemma kind_OP_facts (t : Token) :
  kind t = "OP" -> is_operand t = false /\ is_paren t = false.
Proof.
  intros Hk. split; apply not_true_is_false.
  - rewrite operand_kinds, Hk. intros [|]; discriminate.
  - rewrite paren_kinds, Hk. intros [|]; discriminate.
Qed.

(** What sits on the parser's stack above the first left parenthesis is
    operators. *)
Lemma stack_moved_ops (moved rest : list Token) :
  Forall stack_kind (moved ++ rest) ->
  Forall (fun u => kind u <> "LPAREN") moved ->
  Forall (fun u => kind u = "OP") moved.
Proof.
  intros [Hm _]%Forall_app Hn. induction Hm as [|u l [Hu|Hu] Hl IH];
    inversion Hn; subst; constructor; auto. contradiction.
Qed.

Lemma to_rpn_step_operands (t : Token) (out stack out' stack' : list Token) :
  parser_inv out stack ->
  to_rpn_step t out stack = Ok (out', stack') ->
  filter (fun u => is_operand u = true) out'
  = filter (fun u => is_operand u = true) out
    ++ filter (fun u => is_operand u = true) [t].
Proof.
  intros [_ Hst] Hstep.
  destruct (to_rpn_step_shape _ _ _ _ _ Hstep)
    as [(Ht & -> & ->)|[(Ht & _ & moved & rest & -> & -> & -> & Hm)
       |[(Ht & -> & ->)|(Ht & moved & lp & -> & -> & Hlp & Hm)]]].
  - now rewrite filter_app.
  - rewrite filter_app, (filter_none _ moved), (filter_none _ [t]);
      [reflexivity| |].
    + constructor; [|constructor]. destruct (kind_OP_facts t Ht). congruence.
    + eapply Forall_impl; [exact Hm|]. intros u Hu.
      destruct (kind_OP_facts u Hu). congruence.
  - rewrite (filter_none _ [t]); [now rewrite app_nil_r|].
    constructor; [|constructor]. rewrite not_true_iff_false.
    apply stack_kind_no_operand. now right.
  - apply (stack_moved_ops moved (lp :: stack')) in Hm; [|assumption].
    rewrite filter_app, (filter_none _ moved), (filter_none _ [t]);
      [reflexivity| |].
    + constructor; [|constructor]. rewrite not_true_iff_false.
      apply not_true_is_false. rewrite operand_kinds, Ht.
      intros [|]; discriminate.
    + eapply Forall_impl; [exact Hm|]. intros u Hu.
      destruct (kind_OP_facts u Hu). congruence.
Qed.

(** X2.  The parser keeps the operands and their order: the numbers and
    identifiers of the postfix output are those of the input, in the same
    order. *)
Theorem to_rpn_keeps_operands (tokens rpn : list Token) :
  to_rpn tokens = Ok rpn ->
  filter (fun t => is_operand t = true) rpn
  = filter (fun t => is_operand t = true) tokens.
Proof.
  unfold to_rpn.
  destruct (to_rpn_loop tokens [] []) as [[out stack]|e|] eqn:Hloop; simpl;
    try discriminate.
  intros [-> Hnp]%drain_shape.
  assert (Hgen : forall tokens out0 stack0 out stack,
             parser_inv out0 stack0 ->
             to_rpn_loop tokens out0 stack0 = Ok (out, stack) ->
             parser_inv out stack
             /\ filter (fun t => is_operand t = true) out
                = filter (fun t => is_operand t = true) out0
                  ++ filter (fun t => is_operand t = true) tokens).
  { clear. induction tokens as [|t tokens IH]; intros out0 stack0 out stack Hinv;
      simpl.
    - intros [= <- <-]. now rewrite app_nil_r.
    - destruct (to_rpn_step t out0 stack0) as [[o s]|e|] eqn:Hstep; simpl;
        try discriminate.
      intros Hloop.
      pose proof (to_rpn_step_inv _ _ _ _ _ Hinv Hstep) as Hinv'.
      destruct (IH _ _ _ _ Hinv' Hloop) as [Hinv'' ->].
      split; [assumption|].
      rewrite (to_rpn_step_operands _ _ _ _ _ Hinv Hstep), <- app_assoc.
      f_equal. change (t :: tokens) with ([t] ++ tokens).
      now rewrite filter_app. }
  destruct (Hgen tokens [] [] out stack) as [[_ Hst] Hout];
    [split; constructor|assumption|].
  rewrite filter_app, Hout, (filter_none _ stack); [now rewrite app_nil_r|].
  eapply Forall_impl; [exact Hst|]. intros u Hu.
  rewrite not_true_iff_false. now apply stack_kind_no_operand.
Qed.

Lemma to_rpn_keeps_operands_witness :
  to_rpn paren_tokens
  = Ok [mkToken "NUM" "1"; mkToken "ID" "x"; mkToken "OP" "+";
        mkToken "NUM" "2"; mkToken "OP" "*"]
  /\ filter (fun t => is_operand t = true)
       [mkToken "NUM" "1"; mkToken "ID" "x"; mkToken "OP" "+";
        mkToken "NUM" "2"; mkToken "OP" "*"]
     = filter (fun t => is_operand t = true) paren_tokens.
Proof.
  split; [reflexivity|]. apply (to_rpn_keeps_operands paren_tokens).
  reflexivity.
Defined.

Lemma to_rpn_step_permutation (t : Token) (out stack out' stack' : list Token) :
  parser_inv out stack ->
  to_rpn_step t out stack = Ok (out', stack') ->
  out' ++ filter (fun u => is_paren u = false) stack'
  ≡ₚ (out ++ filter (fun u => is_paren u = false) stack)
     ++ filter (fun u => is_paren u = false) [t].
Proof.
  intros [_ Hst] Hstep.
  assert (Hops : forall l, Forall (fun u => kind u = "OP") l ->
                           filter (fun u => is_paren u = false) l = l).
  { intros l Hl. apply filter_all. eapply Forall_impl; [exact Hl|].
    intros u Hu. now destruct (kind_OP_facts u Hu). }
  assert (Hpar : forall u, is_paren u = true ->
                           filter (fun u => is_paren u = false) [u] = []).
  { intros u Hu. apply filter_none. constructor; [congruence|constructor]. }
  destruct (to_rpn_step_shape _ _ _ _ _ Hstep)
    as [(Ht & -> & ->)|[(Ht & _ & moved & rest & -> & -> & -> & Hm)
       |[(Ht & -> & ->)|(Ht & moved & lp & -> & -> & Hlp & Hm)]]].
  - rewrite (filter_all _ [t]).
    + rewrite <- !app_assoc. apply Permutation_app_head, Permutation_app_comm.
    + constructor; [|constructor]. apply not_true_is_false.
      rewrite paren_kinds. apply operand_kinds in Ht.
      destruct Ht as [Ht|Ht]; rewrite Ht; intros [|]; discriminate.
  - rewrite filter_app, (Hops moved Hm), (Hops [t]) by (now repeat constructor).
    change (t :: rest) with ([t] ++ rest). rewrite filter_app, (Hops [t])
      by (now repeat constructor).
    rewrite <- !app_assoc. do 2 apply Permutation_app_head.
    apply Permutation_app_comm.
  - change (t :: stack) with ([t] ++ stack).
    rewrite filter_app, Hpar, app_nil_r; [reflexivity|].
    apply paren_kinds. now left.
  - apply (stack_moved_ops moved (lp :: stack')) in Hm; [|assumption].
    change (lp :: stack') with ([lp] ++ stack').
    rewrite !filter_app, (Hops moved Hm), !Hpar, app_nil_r, <- app_assoc;
      [reflexivity| |]; apply paren_kinds; auto.
Qed.

Lemma to_rpn_loop_permutation (tokens out0 stack0 out stack : list Token) :
  parser_inv out0 stack0 ->
  to_rpn_loop tokens out0 stack0 = Ok (out, stack) ->
  out ++ filter (fun t => is_paren t = false) stack
  ≡ₚ (out0 ++ filter (fun t => is_paren t = false) stack0)
     ++ filter (fun t => is_paren t = false) tokens.
Proof.
  revert out0 stack0; induction tokens as [|t tokens IH];
    intros out0 stack0 Hinv; simpl.
  - intros [= <- <-]. now rewrite app_nil_r.
  - destruct (to_rpn_step t out0 stack0) as [[o s]|e|] eqn:Hstep; simpl;
      try discriminate.
    intros Hloop.
    pose proof (to_rpn_step_inv _ _ _ _ _ Hinv Hstep) as Hinv'.
    rewrite (IH _ _ Hinv' Hloop).
    rewrite (to_rpn_step_permutation _ _ _ _ _ Hinv Hstep), <- app_assoc.
    change (t :: tokens) with ([t] ++ tokens). now rewrite filter_app.
Qed.

(** X3.  The parser neither drops nor invents a token: its postfix output
    is a rearrangement of the input tokens that are not parentheses. *)
Theorem to_rpn_permutation (tokens rpn : list Token) :
  to_rpn tokens = Ok rpn ->
  rpn ≡ₚ filter (fun t => is_paren t = false) tokens.
Proof.
  unfold to_rpn.
  destruct (to_rpn_loop tokens [] []) as [[out stack]|e|] eqn:Hloop; simpl;
    try discriminate.
  intros [-> Hnp]%drain_shape.
  rewrite <- (filter_all (fun t => is_paren t = false) stack) at 1
    by assumption.
  rewrite (to_rpn_loop_permutation tokens [] [] out stack);
    [reflexivity|split; constructor|assumption].
Qed.

(** Every token of the output is a token of the input. *)
Lemma to_rpn_elements (tokens rpn : list Token) (t : Token) :
  to_rpn tokens = Ok rpn -> t ∈ rpn -> t ∈ tokens.
Proof.
  unfold to_rpn.
  destruct (to_rpn_loop tokens [] []) as [[out stack]|e|] eqn:Hloop; simpl;
    try discriminate.
  intros [-> Hnp]%drain_shape Ht.
  rewrite <- (filter_all (fun t => is_paren t = false) stack) in Ht
    by assumption.
  rewrite (to_rpn_loop_permutation tokens [] [] out stack) in Ht;
    [|split; constructor|assumption].
  simpl in Ht. now apply list_elem_of_filter in Ht as [_ Ht].
Qed.

Lemma to_rpn_permutation_witness :
  to_rpn paren_tokens
  = Ok [mkToken "NUM" "1"; mkToken "ID" "x"; mkToken "OP" "+";
        mkToken "NUM" "2"; mkToken "OP" "*"]
  /\ [mkToken "NUM" "1"; mkToken "ID" "x"; mkToken "OP" "+";
      mkToken "NUM" "2"; mkToken "OP" "*"]
     ≡ₚ filter (fun t => is_paren t = false) paren_tokens.
Proof.
  split; [reflexivity|]. apply (to_rpn_permutation paren_tokens). reflexivity.
Defined.

(** ** Parser: what it accepts and how it fails *)

Lemma paren_depth_app (d : nat) (l1 l2 : list Token) :
  paren_depth d (l1 ++ l2)
  = match paren_depth d l1 with
    | Some d' => paren_depth d' l2
    | None => None
    end.
Proof.
  revert d; induction l1 as [|t l1 IH]; intros d; simpl; [reflexivity|].
  destruct (kind_is t "LPAREN"); [apply IH|].
  destruct (kind_is t "RPAREN"); [|apply IH].
  destruct d; [reflexivity|apply IH].
Qed.

Lemma open_parens_ops (moved rest : list Token) :
  Forall (fun u => kind u <> "LPAREN") moved ->
  open_parens (moved ++ rest) = open_parens rest.
Proof.
  induction 1 as [|u l Hu Hl IH]; simpl; [reflexivity|].
  apply kind_is_false in Hu. now rewrite Hu.
Qed.

Lemma stack_ok_kinds (stack : list Token) : stack_ok stack -> Forall stack_kind stack.
Proof.
  intros Hok. eapply Forall_impl; [exact Hok|].
  intros t [[Ht _]|Ht]; [now left|now right].
Qed.

Lemma pop_operators_ok (p1 : Z) (assoc1 : string) (out stack : list Token) :
  stack_ok stack ->
  exists moved rest,
    pop_operators p1 assoc1 out stack = Ok (out ++ moved, rest)
    /\ stack = moved ++ rest /\ Forall (fun u => kind u = "OP") moved.
Proof.
  intros Hok. revert out; induction Hok as [|top rest Htop Hrest IH];
    intros out; simpl.
  { exists [], []. rewrite app_nil_r. repeat split; constructor. }
  destruct (kind_is top "OP") eqn:Hk.
  - apply kind_is_true in Hk.
    destruct Htop as [[_ [[p2 a2] Hp]]|Hlp]; [|congruence]. rewrite Hp.
    destruct (_ || _).
    + destruct (IH (out ++ [top])) as (moved & rest' & -> & -> & Hm).
      exists (top :: moved), rest'. rewrite <- app_assoc. repeat split.
      now constructor.
    + exists [], (top :: rest). rewrite app_nil_r. repeat split; constructor.
  - exists [], (top :: rest). rewrite app_nil_r. repeat split; constructor.
Qed.

Lemma kind_is_other (t : Token) (k k' : string) :
  kind_is t k = true -> k <> k' -> kind_is t k' = false.
Proof.
  intros Hk Hne. apply kind_is_true in Hk. apply kind_is_false. congruence.
Qed.

Lemma paren_depth_one (d : nat) (t : Token) :
  paren_depth d [t]
  = if kind_is t "LPAREN" then Some (S d)
    else if kind_is t "RPAREN" then match d with O => None | S d' => Some d' end
    else Some d.
Proof.
  simpl. destruct (kind_is t "LPAREN"); [reflexivity|].
  destruct (kind_is t "RPAREN"); [|reflexivity]. now destruct d.
Qed.

(** One iteration of the parser: what it does to the stack when it
    returns, and why it raises when it raises. *)
Lemma to_rpn_step_spec (t : Token) (out stack : list Token) :
  stack_ok stack ->
  match to_rpn_step t out stack with
  | Ok (out', stack') =>
      parsable t /\ stack_ok stack'
      /\ paren_depth (open_parens stack) [t] = Some (open_parens stack')
  | Raise x => offending (open_parens stack) t x
  | OutOfFuel => False
  end.
Proof.
  intros Hok. unfold to_rpn_step, parsable, offending.
  rewrite paren_depth_one. fold (is_operand t).
  destruct (is_operand t) eqn:Hopd.
  { assert (kind_is t "LPAREN" = false /\ kind_is t "RPAREN" = false) as [-> ->].
    { apply orb_true_iff in Hopd as [Hk|Hk];
        split; apply (kind_is_other _ _ _ Hk); discriminate. }
    auto. }
  destruct (kind_is t "OP") eqn:Hop.
  { rewrite (kind_is_other _ _ "LPAREN" Hop), (kind_is_other _ _ "RPAREN" Hop)
      by discriminate.
    apply kind_is_true in Hop as Hk.
    destruct (PRECEDENCE !! value t) as [[p1 assoc1]|] eqn:Hprec; [|auto].
    destruct (pop_operators_ok p1 assoc1 out stack Hok)
      as (moved & rest & -> & -> & Hm). simpl.
    apply Forall_app in Hok as [_ Hrest].
    rewrite (kind_is_other _ _ "LPAREN" Hop) by discriminate.
    rewrite open_parens_ops
      by (eapply Forall_impl; [exact Hm|]; intros u ->; discriminate).
    repeat split; eauto.
    constructor; [|assumption]. left. eauto. }
  destruct (kind_is t "LPAREN") eqn:Hlp.
  { simpl. rewrite Hlp. repeat split; auto.
    - right; right. unfold is_paren. now rewrite Hlp.
    - constructor; [|assumption]. right. now apply kind_is_true. }
  destruct (kind_is t "RPAREN") eqn:Hrp.
  { apply kind_is_true in Hrp as Hk.
    destruct (pop_to_lparen out stack) as [o s] eqn:Hpop.
    destruct (pop_to_lparen_shape _ _ _ _ Hpop) as (moved & -> & -> & Hm & Hs).
    rewrite open_parens_ops by assumption.
    apply Forall_app in Hok as [_ Hrest].
    destruct s as [|lp rest]; simpl; [auto|].
    apply kind_is_true in Hs. rewrite Hs. simpl.
    repeat split.
    - right; right. unfold is_paren. rewrite Hrp. apply orb_true_r.
    - now inversion Hrest. }
  right; right. repeat split; [now apply kind_is_false|].
  unfold is_paren. now rewrite Hlp, Hrp.
Qed.

Lemma paren_depth_cons (d : nat) (t : Token) (tokens : list Token) :
  paren_depth d (t :: tokens)
  = match paren_depth d [t] with
    | Some d' => paren_depth d' tokens
    | None => None
    end.
Proof. apply (paren_depth_app d [t] tokens). Qed.

Lemma offending_not_parsable (d : nat) (t : Token) (x : exn) :
  offending d t x -> ~ (parsable t /\ is_Some (paren_depth d [t])).
Proof.
  rewrite paren_depth_one. unfold parsable.
  intros [(Hk & -> & _)|[(Hk & Hnone & _)|(Hopd & Hk & Hpar & _)]] [Hp Hd].
  - rewrite <- kind_is_true in Hk.
    rewrite (kind_is_other _ _ "LPAREN" Hk), Hk in Hd by discriminate.
    now destruct Hd.
  - destruct (kind_OP_facts t Hk) as [Hopd Hpar]. rewrite Hnone in Hp.
    destruct Hp as [Hp|[[_ [? ?]]|Hp]]; congruence.
  - destruct Hp as [Hp|[[Hp _]|Hp]]; congruence.
Qed.

Lemma offending_exn (d : nat) (t : Token) (x x' : exn) :
  offending d t x -> offending d t x' -> x = x'.
Proof.
  intros [(Hk & _ & ->)|[(Hk & _ & ->)|(Hopd & Hk & Hpar & ->)]]
         [(Hk' & _ & ->)|[(Hk' & _ & ->)|(Hopd' & Hk' & Hpar' & ->)]];
    try reflexivity; try congruence.
  - exfalso. apply not_true_iff_false in Hpar'. apply Hpar'.
    apply paren_kinds. auto.
  - exfalso. apply not_true_iff_false in Hpar. apply Hpar.
    apply paren_kinds. auto.
Qed.

Lemma to_rpn_loop_spec (tokens out stack : list Token) :
  stack_ok stack ->
  match to_rpn_loop tokens out stack with
  | Ok (out', stack') =>
      Forall parsable tokens /\ stack_ok stack'
      /\ paren_depth (open_parens stack) tokens = Some (open_parens stack')
  | Raise x =>
      exists pre t post d,
        tokens = pre ++ t :: post /\ Forall parsable pre
        /\ paren_depth (open_parens stack) pre = Some d /\ offending d t x
  | OutOfFuel => False
  end.
Proof.
  revert out stack; induction tokens as [|t tokens IH]; intros out stack Hok;
    simpl to_rpn_loop.
  { repeat split; [constructor|assumption]. }
  pose proof (to_rpn_step_spec t out stack Hok) as Hstep.
  destruct (to_rpn_step t out stack) as [[o s]|x|]; simpl bind;
    [|exists [], t, tokens, (open_parens stack); auto|assumption].
  destruct Hstep as (Hp & Hok' & Hd). specialize (IH o s Hok').
  destruct (to_rpn_loop tokens o s) as [[o' s']|x|]; [| |assumption].
  - destruct IH as (Hall & Hok'' & Hd'). rewrite paren_depth_cons, Hd.
    repeat split; auto.
  - destruct IH as (pre & u & post & d & -> & Hall & Hd' & Hoff).
    exists (t :: pre), u, post, d. rewrite paren_depth_cons, Hd.
    repeat split; auto.
Qed.

Lemma stack_ok_nil : stack_ok [].
Proof. constructor. Qed.

Lemma stack_ok_closed (stack : list Token) :
  stack_ok stack ->
  Forall (fun t => is_paren t = false) stack <-> open_parens stack = O.
Proof.
  induction 1 as [|t stack Ht Hst IH]; simpl; [split; auto|].
  destruct Ht as [[Hk _]|Hk].
  - destruct (kind_OP_facts t Hk) as [_ Hpar].
    rewrite <- kind_is_true in Hk.
    rewrite (kind_is_other _ _ "LPAREN" Hk) by discriminate.
    rewrite <- IH. split; [now inversion 1|now constructor].
  - apply kind_is_true in Hk. rewrite Hk. split; [|discriminate].
    inversion 1 as [|? ? Hpar]. unfold is_paren in Hpar.
    now rewrite Hk in Hpar.
Qed.

Lemma drain_raises (out stack : list Token) (x : exn) :
  drain out stack = Raise x -> x = SyntaxError MismatchedParentheses.
Proof.
  revert out; induction stack as [|top rest IH]; intros out; simpl;
    [discriminate|].
  destruct (_ || _); [now intros [= <-]|apply IH].
Qed.

(** X4.  What the parser accepts: [to_rpn] returns a postfix sequence
    exactly when every token is an operand, an operator of the precedence
    table or a parenthesis, and the parentheses are balanced.  (The order
    of operands and operators plays no part.) *)
Theorem to_rpn_accepts (tokens : list Token) :
  (exists rpn, to_rpn tokens = Ok rpn)
  <-> Forall parsable tokens /\ paren_depth 0 tokens = Some O.
Proof.
  unfold to_rpn.
  pose proof (to_rpn_loop_spec tokens [] [] stack_ok_nil) as Hloop.
  simpl open_parens in Hloop.
  destruct (to_rpn_loop tokens [] []) as [[out stack]|x|]; simpl bind;
    [| |contradiction].
  - destruct Hloop as (Hall & Hok & Hd). rewrite Hd. split.
    + intros [rpn [_ Hnp]%drain_shape]. split; [assumption|].
      f_equal. now apply stack_ok_closed.
    + intros [_ [= Hd']]. exists (out ++ stack). apply drain_shape.
      split; [reflexivity|]. now apply stack_ok_closed.
  - destruct Hloop as (pre & t & post & d & -> & Hall & Hd & Hoff).
    split; [intros [rpn [=]]|]. intros [Hall' Hbal]. exfalso.
    apply (offending_not_parsable _ _ _ Hoff).
    apply Forall_app in Hall' as [_ Hall']. inversion Hall'; subst.
    split; [assumption|].
    rewrite paren_depth_app, Hd, paren_depth_cons in Hbal.
    destruct (paren_depth d [t]); [eauto|discriminate].
Qed.

Lemma to_rpn_raises_at (pre post out stack : list Token) (t : Token)
    (d : nat) (x : exn) :
  stack_ok stack -> Forall parsable pre ->
  paren_depth (open_parens stack) pre = Some d -> offending d t x ->
  to_rpn_loop (pre ++ t :: post) out stack = Raise x.
Proof.
  intros Hok Hall. revert out stack Hok.
  induction Hall as [|u pre Hu Hpre IH]; intros out stack Hok Hd Hoff;
    simpl app; simpl to_rpn_loop.
  - injection Hd as <-.
    pose proof (to_rpn_step_spec t out stack Hok) as Hstep.
    destruct (to_rpn_step t out stack) as [[o s]|x'|]; simpl bind;
      [|f_equal; eapply offending_exn; eassumption|contradiction].
    exfalso. apply (offending_not_parsable _ _ _ Hoff).
    destruct Hstep as (Hp & _ & Hd). rewrite Hd. eauto.
  - rewrite paren_depth_cons in Hd.
    pose proof (to_rpn_step_spec u out stack Hok) as Hstep.
    destruct (to_rpn_step u out stack) as [[o s]|x'|]; simpl bind;
      [| |contradiction].
    + destruct Hstep as (_ & Hok' & Hd'). rewrite Hd' in Hd. now apply IH.
    + exfalso. apply (offending_not_parsable _ _ _ Hstep).
      split; [assumption|]. destruct (paren_depth _ [u]); [eauto|discriminate].
Qed.

(** X5.  How the parser fails: [to_rpn] raises [x] exactly when either
    the first token it has no case for raises [x] (a right parenthesis
    with none open: "Mismatched parentheses"; an operator missing from
    [PRECEDENCE]: [KeyError]; a token of another kind, such as "EQ":
    "Unexpected token"), or every token is legal, a parenthesis is still
    open at the end and [x] is "Mismatched parentheses". *)
Theorem to_rpn_raises (tokens : list Token) (x : exn) :
  to_rpn tokens = Raise x
  <-> (exists pre t post d,
          tokens = pre ++ t :: post /\ Forall parsable pre
          /\ paren_depth 0 pre = Some d /\ offending d t x)
      \/ (Forall parsable tokens
          /\ (exists d, paren_depth 0 tokens = Some (S d))
          /\ x = SyntaxError MismatchedParentheses).
Proof.
  split.
  - unfold to_rpn.
    pose proof (to_rpn_loop_spec tokens [] [] stack_ok_nil) as Hloop.
    simpl open_parens in Hloop.
    destruct (to_rpn_loop tokens [] []) as [[out stack]|x'|]; simpl bind;
      [| |contradiction].
    + destruct Hloop as (Hall & Hok & Hd). intros Hdrain. right.
      split; [assumption|]. split; [|eapply drain_raises; eassumption].
      destruct (open_parens stack) as [|d] eqn:Hopen; [|eauto].
      apply stack_ok_closed in Hopen; [|assumption].
      assert (Hsome : drain out stack = Ok (out ++ stack))
        by (apply drain_shape; auto).
      congruence.
    + intros [= ->]. left. assumption.
  - intros [(pre & t & post & d & -> & Hall & Hd & Hoff)|(Hall & [d Hd] & ->)];
      unfold to_rpn.
    + rewrite (to_rpn_raises_at pre post [] [] t d x); auto.
      apply stack_ok_nil.
    + pose proof (to_rpn_loop_spec tokens [] [] stack_ok_nil) as Hloop.
      simpl open_parens in Hloop.
      destruct (to_rpn_loop tokens [] []) as [[out stack]|x'|]; simpl bind;
        [| |contradiction].
      * destruct Hloop as (_ & Hok & Hd'). rewrite Hd in Hd'.
        injection Hd' as Hopen.
        destruct (drain out stack) as [rpn|x'|] eqn:Hdrain.
        -- apply drain_shape in Hdrain as [_ Hnp].
           apply stack_ok_closed in Hnp; [congruence|assumption].
        -- f_equal. eapply drain_raises; eassumption.
        -- now apply drain_returns in Hdrain.
      * destruct Hloop as (pre & t & post & d' & -> & Hpre & Hd' & Hoff).
        exfalso. apply (offending_not_parsable _ _ _ Hoff).
        apply Forall_app in Hall as [_ Hall]. inversion Hall; subst.
        split; [assumption|].
        rewrite paren_depth_app, Hd', paren_depth_cons in Hd.
        destruct (paren_depth d' [t]); [eauto|discriminate].
Qed.

(** ** The errors of [eval_expr] *)

Lemma tokenize_loop_raises (expr : string) (fuel i : nat)
    (tokens : list Token) (x : exn) :
  tokenize_loop fuel expr i tokens = Raise x ->
  exists j,
    (i <= j < String.length expr)%nat /\ TOKEN_RE_match expr j = None
    /\ x = SyntaxError (UnexpectedCharacter j (Str.slice j (S j) expr)).
Proof.
  revert i tokens; induction fuel as [|fuel IH]; intros i tokens; simpl.
  - destruct (i <? String.length expr)%nat; discriminate.
  - destruct (Nat.ltb_spec i (String.length expr)) as [Hlt|]; [|discriminate].
    destruct (TOKEN_RE_match expr i) as [[g j]|] eqn:Hm.
    + intros Hr. apply TOKEN_RE_match_progress in Hm.
      destruct (IH _ _ Hr) as (k & Hk & Hnone & ->).
      exists k. repeat split; auto; lia.
    + intros [= <-]. exists i. repeat split; auto.
Qed.

Lemma lexed_parsable (t : Token) :
  lexed t -> parsable t \/ t = mkToken "EQ" "=".
Proof.
  intros [(Hk & _)|[(Hk & w & Hw & Hp)|[(Hk & _)|[-> | [-> | ->]]]]]; auto; left.
  - left. apply operand_kinds. auto.
  - right; left. auto.
  - left. apply operand_kinds. auto.
  - right; right. reflexivity.
  - right; right. reflexivity.
Qed.

Lemma to_rpn_rpn_kind (tokens rpn : list Token) :
  to_rpn tokens = Ok rpn -> Forall rpn_kind rpn.
Proof.
  unfold to_rpn.
  destruct (to_rpn_loop tokens [] []) as [[out stack]|e|] eqn:Hloop; simpl;
    try discriminate.
  apply drain_inv. eapply to_rpn_loop_inv; [|eassumption]. split; constructor.
Qed.

(** On the tokenizer's tokens the parser raises for parentheses and for
    "=" only. *)
Lemma to_rpn_lexed_raises (tokens : list Token) (x : exn) :
  Forall lexed tokens -> to_rpn tokens = Raise x ->
  x = SyntaxError MismatchedParentheses
  \/ x = SyntaxError (UnexpectedTokenInExpression (mkToken "EQ" "=")).
Proof.
  intros Hlex. unfold to_rpn.
  pose proof (to_rpn_loop_spec tokens [] [] stack_ok_nil) as Hloop.
  destruct (to_rpn_loop tokens [] []) as [[out stack]|x'|]; simpl bind;
    [| |contradiction].
  - intros Hd. left. eapply drain_raises; eassumption.
  - intros [= ->].
    destruct Hloop as (pre & t & post & d & -> & _ & _ & Hoff).
    apply Forall_app in Hlex as [_ Hlex]. inversion Hlex as [|? ? Ht _]; subst.
    destruct Hoff as [(_ & _ & ->)|[(Hk & Hnone & _)|(Hopd & Hk & Hpar & ->)]];
      [now left| |].
    + exfalso.
      destruct Ht as [(Hk' & _)|[(_ & _ & _ & [? ?])|[(Hk' & _)|[-> | [-> | ->]]]]];
        try congruence; discriminate.
    + right. destruct (lexed_parsable t Ht) as [[Hp|[[Hp _]|Hp]]| ->];
        congruence.
Qed.

Lemma NUM_WORDS_to_int (w : string) (n : Z) :
  NUM_WORDS !! w = Some n -> Str.to_int (Str.of_int n) = Some n.
Proof.
  intros Hw. apply elem_of_list_to_map_2 in Hw.
  repeat (apply elem_of_cons in Hw as [[= -> ->]|Hw]; [reflexivity|]).
  now apply elem_of_nil in Hw.
Qed.

Lemma OP_WORDS_values (w op : string) :
  OP_WORDS !! w = Some op ->
  op = "+" \/ op = "-" \/ op = "*" \/ op = "/" \/ op = "**".
Proof.
  intros Hw. apply elem_of_list_to_map_2 in Hw.
  repeat (apply elem_of_cons in Hw as [[= -> ->]|Hw]; [tauto|]).
  now apply elem_of_nil in Hw.
Qed.

Section EvaluatorErrors.

Context (H : host).

Abbreviation val := (number (flonum H)).
Abbreviation env := (gmap string val).

Lemma of_host_raises (r : arithmetic_error + flonum H) (x : exn) :
  of_host H r = Raise x -> exists a, x = ArithmeticError a.
Proof. destruct r; intros [= <-]; eauto. Qed.

Lemma arith_raises (a b : val) (x : exn) :
  (add H a b = Raise x \/ sub H a b = Raise x \/ mul H a b = Raise x
   \/ truediv H a b = Raise x \/ pow H a b = Raise x) ->
  exists err, x = ArithmeticError err.
Proof.
  intros [Hr|[Hr|[Hr|[Hr|Hr]]]];
    destruct a as [m|f], b as [n|g]; simpl in Hr;
    try discriminate; try (eapply of_host_raises; eassumption).
  - destruct (n =? 0); [|eapply of_host_raises; eassumption].
    injection Hr as <-. eauto.
  - destruct (0 <=? n); [discriminate|eapply of_host_raises; eassumption].
Qed.

Lemma push_result_raises (r : outcome val) (st : list val) (x : exn) :
  (let* v := r in Ok (v :: st)) = Raise x -> r = Raise x.
Proof. destruct r; simpl; congruence. Qed.

(** What one token of the tokenizer can raise in the evaluator. *)
Lemma eval_token_lexed_raises (t : Token) (st : list val) (e : env) (x : exn) :
  lexed t -> rpn_kind t ->
  (eval_token H t st e).2 = Raise x ->
  x = SyntaxError NotEnoughValues
  \/ (exists name, x = NameError name /\ e !! name = None)
  \/ (exists err, x = ArithmeticError err).
Proof.
  intros Hlex Hkind. unfold eval_token, kind_is.
  destruct Hlex as [(Hk & w & n & Hw & Hv)
                   |[(Hk & w & Hw & _)|[(Hk & _)|[-> | [-> | ->]]]]];
    try (exfalso; destruct Hkind as [Hk|[Hk|Hk]]; discriminate Hk).
  - rewrite Hk, Hv, (NUM_WORDS_to_int _ _ Hw). discriminate.
  - rewrite Hk. cbn [String.eqb Ascii.eqb Bool.eqb].
    destruct st as [|b [|a st2]]; [intros [= <-]; auto..|].
    unfold lift. cbn [pop_num bind snd].
    apply OP_WORDS_values in Hw.
    decompose [or] Hw; clear Hw;
      match goal with Hop : value t = _ |- _ => rewrite Hop end;
      cbn [String.eqb Ascii.eqb Bool.eqb];
      intros Hr%push_result_raises; right; right;
      apply (arith_raises a b); tauto.
  - rewrite Hk. cbn [String.eqb Ascii.eqb Bool.eqb].
    unfold and_then, env_contains, env_getitem, raise, lift, ret.
    destruct (e !! value t) eqn:Hget; cbn [negb snd]; rewrite ?Hget;
      [discriminate|].
    intros [= <-]. right; left. eauto.
Qed.

Lemma eval_loop_lexed_raises (rpn : list Token) (st : list val) (e : env)
    (x : exn) :
  Forall lexed rpn -> Forall rpn_kind rpn ->
  (eval_loop H rpn st e).2 = Raise x ->
  x = SyntaxError NotEnoughValues
  \/ (exists name, x = NameError name /\ e !! name = None)
  \/ (exists err, x = ArithmeticError err).
Proof.
  intros Hlex. revert st. induction Hlex as [|t rpn Ht Hrpn IH];
    intros st Hkind; [discriminate|].
  inversion Hkind; subst. rewrite eval_loop_cons.
  destruct (eval_token H t st e).2 as [st'|x'|] eqn:Htok; simpl;
    [now apply IH| |discriminate].
  intros [= ->]. eapply eval_token_lexed_raises; eassumption.
Qed.

(** X6.  The exceptions of [eval_expr].  Whatever the text and the
    environment, [eval_expr] raises nothing but: the lex error, at a
    position inside the text where no token starts; "Mismatched
    parentheses"; "Unexpected token" for an equals sign; "Not enough
    values"; "did not reduce to a single value"; [NameError] for a name the
    environment does not bind; an arithmetic error.  It never raises
    [KeyError] or [ValueError], and never reports an unknown operator. *)
Theorem eval_expr_raises (expr : string) (e : env) (x : exn) :
  (eval_expr H expr e).2 = Raise x ->
  (exists i, (i < String.length expr)%nat /\ TOKEN_RE_match expr i = None
             /\ x = SyntaxError
                      (UnexpectedCharacter i (Str.slice i (S i) expr)))
  \/ x = SyntaxError MismatchedParentheses
  \/ x = SyntaxError (UnexpectedTokenInExpression (mkToken "EQ" "="))
  \/ x = SyntaxError NotEnoughValues
  \/ x = SyntaxError NotSingleValue
  \/ (exists name, x = NameError name /\ e !! name = None)
  \/ (exists err, x = ArithmeticError err).
Proof.
  unfold eval_expr, and_then, lift.
  destruct (tokenize_expr expr) as [tokens|x'|] eqn:Htok; simpl;
    [| |discriminate].
  2:{ intros [= ->]. left. apply tokenize_loop_raises in Htok
        as (j & Hj & Hnone & ->). exists j. repeat split; auto; lia. }
  assert (Hlex : Forall lexed tokens)
    by (eapply tokenize_loop_lexed; [constructor|exact Htok]).
  destruct (to_rpn tokens) as [rpn|x'|] eqn:Hrpn; simpl; [| |discriminate].
  2:{ intros [= ->].
      destruct (to_rpn_lexed_raises _ _ Hlex Hrpn) as [->| ->]; auto. }
  assert (Hlex' : Forall lexed rpn).
  { rewrite Forall_forall in *. intros t Ht. apply Hlex.
    eapply to_rpn_elements; eassumption. }
  pose proof (to_rpn_rpn_kind _ _ Hrpn) as Hkind.
  rewrite eval_rpn_unfold.
  destruct (eval_loop H rpn [] e).2 as [[|v [|w st]]|x'|] eqn:Hloop; simpl;
    try discriminate; intros [= <-]; [tauto|tauto|].
  destruct (eval_loop_lexed_raises _ _ _ _ Hlex' Hkind Hloop)
    as [->|[Hn|Ha]]; tauto.
Qed.

End EvaluatorErrors.

Lemma eval_expr_raises_witness :
  (eval_expr int_only "one divided_by zero" env_x).2
  = Raise (ArithmeticError ZeroDivisionError)
  /\ ((exists i, (i < String.length "one divided_by zero")%nat
                 /\ TOKEN_RE_match "one divided_by zero" i = None
                 /\ ArithmeticError ZeroDivisionError
                    = SyntaxError
                        (UnexpectedCharacter i
                           (Str.slice i (S i) "one divided_by zero")))
      \/ ArithmeticError ZeroDivisionError = SyntaxError MismatchedParentheses
      \/ ArithmeticError ZeroDivisionError
         = SyntaxError (UnexpectedTokenInExpression (mkToken "EQ" "="))
      \/ ArithmeticError ZeroDivisionError = SyntaxError NotEnoughValues
      \/ ArithmeticError ZeroDivisionError = SyntaxError NotSingleValue
      \/ (exists name, ArithmeticError ZeroDivisionError = NameError name
                       /\ env_x !! name = None)
      \/ (exists err, ArithmeticError ZeroDivisionError = ArithmeticError err)).
Proof.
  split; [reflexivity|].
  apply (eval_expr_raises int_only "one divided_by zero" env_x). reflexivity.
Defined.

(** ** Evaluator: the value stack and the environment *)

Section EvaluatorStack.

Context (H : host).

Abbreviation val := (number (flonum H)).
Abbreviation env := (gmap string val).

Lemma push_result_length (r : outcome val) (st st' : list val) :
  (let* v := r in Ok (v :: st)) = Ok st' -> length st' = S (length st).
Proof. destruct r; simpl; [intros [= <-]; reflexivity|discriminate..]. Qed.

(** A token that evaluates either pushes one value (an operand) or
    replaces two values by one (an operator). *)
Lemma eval_token_length (t : Token) (st st' : list val) (e : env) :
  (eval_token H t st e).2 = Ok st' ->
  (is_operand t = true /\ length st' = S (length st))
  \/ (kind t = "OP" /\ S (length st') = length st).
Proof.
  unfold eval_token, is_operand.
  destruct (kind_is t "NUM") eqn:Hnum.
  { destruct (Str.to_int (value t)); [|discriminate].
    intros [= <-]. left. auto. }
  destruct (kind_is t "ID") eqn:Hid.
  { unfold and_then, env_contains, env_getitem. simpl.
    destruct (e !! value t) eqn:Hget; simpl; rewrite ?Hget; [|discriminate].
    intros [= <-]. left. auto. }
  destruct (kind_is t "OP") eqn:Hop; [|discriminate].
  apply kind_is_true in Hop. intros Hr. right. split; [assumption|].
  destruct st as [|b [|a st2]]; [discriminate..|].
  unfold lift in Hr. cbn [pop_num bind snd length] in *.
  repeat match type of Hr with
         | context [if ?c then _ else _] => destruct c
         end; try discriminate;
    apply push_result_length in Hr; lia.
Qed.

Lemma eval_loop_length (rpn : list Token) (st st' : list val) (e : env) :
  (eval_loop H rpn st e).2 = Ok st' ->
  Forall rpn_kind rpn
  /\ (length st' + length (filter (fun t => kind t = "OP") rpn)
      = length st + length (filter (fun t => is_operand t = true) rpn))%nat.
Proof.
  revert st; induction rpn as [|t rpn IH]; intros st.
  { intros [= <-]. split; [constructor|]. simpl. lia. }
  rewrite eval_loop_cons.
  destruct (eval_token H t st e).2 as [st1|x|] eqn:Ht; simpl;
    [|discriminate..].
  intros Hloop. destruct (IH _ Hloop) as [Hkinds Hlen].
  apply eval_token_length in Ht as [[Hopd Hst]|[Hk Hst]].
  - split.
    + constructor; [|assumption]. apply operand_kinds in Hopd.
      unfold rpn_kind. tauto.
    + rewrite (filter_cons_True (fun t => is_operand t = true)) by assumption.
      rewrite filter_cons_False; [simpl; lia|].
      apply operand_kinds in Hopd. intros Hk.
      destruct Hopd as [Hopd|Hopd]; congruence.
  - split.
    + constructor; [|assumption]. unfold rpn_kind. tauto.
    + rewrite (filter_cons_True (fun t => kind t = "OP")) by assumption.
      rewrite filter_cons_False; [simpl; lia|].
      destruct (kind_OP_facts t Hk). congruence.
Qed.

(** X7.  A postfix sequence that evaluates to a value is made of operands
    and operators only, and has exactly one operand more than it has
    operators. *)
Theorem eval_rpn_arity (rpn : list Token) (e : env) (v : val) :
  (eval_rpn H rpn e).2 = Ok v ->
  Forall rpn_kind rpn
  /\ length (filter (fun t => is_operand t = true) rpn)
     = S (length (filter (fun t => kind t = "OP") rpn)).
Proof.
  rewrite eval_rpn_unfold.
  destruct (eval_loop H rpn [] e).2 as [[|w [|w' st]]|x|] eqn:Hloop; simpl;
    try discriminate.
  intros _. apply eval_loop_length in Hloop as [Hkinds Hlen].
  split; [assumption|]. simpl in Hlen. lia.
Qed.

End EvaluatorStack.

Lemma eval_rpn_arity_witness :
  (eval_rpn int_only
     [mkToken "NUM" "2"; mkToken "ID" "x"; mkToken "OP" "*"] env_x).2
  = Ok (VInt 10)
  /\ Forall rpn_kind [mkToken "NUM" "2"; mkToken "ID" "x"; mkToken "OP" "*"]
  /\ length (filter (fun t => is_operand t = true)
               [mkToken "NUM" "2"; mkToken "ID" "x"; mkToken "OP" "*"])
     = S (length (filter (fun t => kind t = "OP")
                    [mkToken "NUM" "2"; mkToken "ID" "x"; mkToken "OP" "*"])).
Proof.
  split; [reflexivity|].
  apply (eval_rpn_arity int_only _ env_x (VInt 10)). reflexivity.
Defined.

(** ** Words, names and blank text *)

Lemma lower_char_id (c : ascii) :
  is_id_start (Str.lower_char c) = is_id_start c
  /\ is_id_char (Str.lower_char c) = is_id_char c.
Proof. destruct c as [[] [] [] [] [] [] [] []]; split; reflexivity. Qed.

Lemma is_identifier_lower (s : string) :
  is_identifier (Str.lower s) = is_identifier s.
Proof.
  destruct s as [|c rest]; [reflexivity|]. cbn [Str.lower is_identifier].
  destruct (lower_char_id c) as [-> _]. f_equal.
  assert (Hrest : Str.span is_id_char (Str.lower rest) = Str.span is_id_char rest
                  /\ String.length (Str.lower rest) = String.length rest).
  { clear. induction rest as [|d rest [IHs IHl]]; [split; reflexivity|].
    cbn [Str.lower Str.span String.length].
    destruct (lower_char_id d) as [_ ->]. rewrite IHs, IHl. auto. }
  destruct Hrest as [-> ->]. reflexivity.
Qed.

Lemma NUM_WORDS_identifier (w : string) (n : Z) :
  NUM_WORDS !! w = Some n -> is_identifier w = true.
Proof.
  intros Hw. apply elem_of_list_to_map_2 in Hw.
  repeat (apply elem_of_cons in Hw as [[= -> ->]|Hw]; [reflexivity|]).
  now apply elem_of_nil in Hw.
Qed.

(** A text that is one identifier is one match of the token regex. *)
Lemma tokenize_word (text : string) :
  is_identifier text = true -> tokenize_expr text = Ok (token_of ID text).
Proof.
  destruct text as [|c rest]; [discriminate|]. unfold is_identifier.
  intros [Hc Hspan]%andb_prop. apply Nat.eqb_eq in Hspan.
  destruct (id_start_class c Hc) as (Hsp & Hl & Hr & He).
  unfold tokenize_expr. cbn [String.length tokenize_loop Nat.ltb Nat.leb].
  unfold TOKEN_RE_match. cbn [String.get Str.drop].
  rewrite Hsp, Hl, Hr, He, Hc, Hspan.
  unfold Str.slice. rewrite Nat.sub_0_r. cbn [substring Nat.add].
  rewrite substring_all. apply tokenize_loop_end. simpl. lia.
Qed.

(** A text that is white space only has no token. *)
Lemma tokenize_blank (text : string) :
  Str.span Str.isspace text = String.length text -> tokenize_expr text = Ok [].
Proof.
  destruct text as [|c rest]; [reflexivity|]. cbn [Str.span String.length].
  destruct (Str.isspace c) eqn:Hc; [|discriminate]. intros [= Hspan].
  unfold tokenize_expr. cbn [String.length tokenize_loop Nat.ltb Nat.leb].
  unfold TOKEN_RE_match. cbn [String.get Str.drop Str.span].
  rewrite Hc, Hspan. cbn [Nat.add token_of app].
  apply tokenize_loop_end. simpl. lia.
Qed.

Section Words.

Context (H : host).

Abbreviation val := (number (flonum H)).
Abbreviation env := (gmap string val).

Lemma eval_expr_parsed (expr : string) (tokens rpn : list Token) (e : env) :
  tokenize_expr expr = Ok tokens -> to_rpn tokens = Ok rpn ->
  eval_expr H expr e = eval_rpn H rpn e.
Proof.
  intros Htok Hrpn. unfold eval_expr, and_then, lift. now rewrite Htok, Hrpn.
Qed.

(** X8.  Number words are read whatever their letter case and whatever the
    environment binds: a text whose lower-case form is a key of
    [NUM_WORDS] is the single token NUM of that number, and evaluates to
    that number in every environment, one that binds the word included. *)
Theorem number_word_value (text : string) (n : Z) :
  NUM_WORDS !! Str.lower text = Some n ->
  tokenize_expr text = Ok [mkToken "NUM" (Str.of_int n)]
  /\ forall e : env, eval_expr H text e = (e, Ok (VInt n)).
Proof.
  intros Hn.
  assert (Hid : is_identifier text = true).
  { rewrite <- is_identifier_lower. eapply NUM_WORDS_identifier; eassumption. }
  assert (Htok : tokenize_expr text = Ok [mkToken "NUM" (Str.of_int n)]).
  { rewrite (tokenize_word _ Hid). cbn [token_of]. now rewrite Hn. }
  split; [assumption|]. intros e.
  rewrite (eval_expr_parsed _ _ [mkToken "NUM" (Str.of_int n)] e Htok)
    by reflexivity.
  rewrite eval_rpn_unfold, eval_loop_cons.
  unfold eval_token, kind_is. cbn [kind value].
  change (String.eqb "NUM" "NUM") with true. cbn iota.
  now rewrite (NUM_WORDS_to_int _ _ Hn).
Qed.

(** X9.  A variable reads back: an identifier that is no word of the
    vocabulary evaluates to the value the environment binds it to, and so
    to [v] right after [env[name] = v]. *)
Theorem defined_variable (name : string) (v : val) (e : env) :
  is_identifier name = true ->
  NUM_WORDS !! Str.lower name = None -> OP_WORDS !! Str.lower name = None ->
  (e !! name = Some v -> eval_expr H name e = (e, Ok v))
  /\ eval_expr H name (<[name := v]> e) = (<[name := v]> e, Ok v).
Proof.
  intros Hid Hnum Hop.
  assert (Hget : forall e' : env,
             e' !! name = Some v -> eval_expr H name e' = (e', Ok v)).
  { intros e' Hsome.
    rewrite (eval_expr_parsed _ _ [mkToken "ID" name] e'
               (tokenize_identifier name Hid Hnum Hop)) by reflexivity.
    rewrite eval_rpn_unfold, eval_loop_cons.
    unfold eval_token, kind_is. cbn [kind value].
    change (String.eqb "ID" "NUM") with false.
    change (String.eqb "ID" "ID") with true.
    unfold and_then, env_contains, env_getitem. rewrite Hsome.
    cbn beta iota delta [negb]. now rewrite Hsome. }
  split; [apply Hget|]. apply Hget. apply lookup_insert_eq.
Qed.

(** X10.  A blank expression: a text made of white space only (the empty
    text included) has no token, and evaluating it raises "Expression did
    not reduce to a single value". *)
Theorem blank_expression (text : string) (e : env) :
  Str.span Str.isspace text = String.length text ->
  eval_expr H text e = (e, Raise (SyntaxError NotSingleValue)).
Proof.
  intros Hblank. unfold eval_expr, and_then, lift.
  now rewrite (tokenize_blank _ Hblank).
Qed.

Lemma eval_token_agree (t : Token) (st : list val) (e e' : env) :
  (kind t = "ID" -> e !! value t = e' !! value t) ->
  (eval_token H t st e).2 = (eval_token H t st e').2.
Proof.
  intros Hagree. unfold eval_token.
  destruct (kind_is t "NUM"). { now destruct (Str.to_int (value t)). }
  destruct (kind_is t "ID") eqn:Hid.
  { apply kind_is_true in Hid. specialize (Hagree Hid).
    unfold and_then, env_contains, env_getitem. simpl. rewrite <- Hagree.
    destruct (e !! value t) eqn:Hget; simpl; rewrite <- ?Hagree, ?Hget;
      reflexivity. }
  now destruct (kind_is t "OP").
Qed.

(** X11.  Evaluation reads the environment at the identifiers of the
    sequence and nowhere else: two environments that agree on the values
    of the "ID" tokens of [rpn] give the same result, so binding another
    name changes nothing. *)
Theorem eval_rpn_reads_its_names (rpn : list Token) (e e' : env) :
  Forall (fun t => kind t = "ID" -> e !! value t = e' !! value t) rpn ->
  (eval_rpn H rpn e).2 = (eval_rpn H rpn e').2.
Proof.
  intros Hagree. rewrite !eval_rpn_unfold.
  assert (Hloop : forall st,
             (eval_loop H rpn st e).2 = (eval_loop H rpn st e').2).
  { induction Hagree as [|t rpn Ht Hrpn IH]; intros st; [reflexivity|].
    rewrite !eval_loop_cons, (eval_token_agree t st e e' Ht).
    destruct (eval_token H t st e').2; auto. }
  rewrite Hloop.
  destruct (eval_loop H rpn [] e').2 as [[|v [|w st]]|x|]; reflexivity.
Qed.

End Words.

Lemma number_word_value_witness :
  NUM_WORDS !! Str.lower "TwElVe" = Some 12
  /\ tokenize_expr "TwElVe" = Ok [mkToken "NUM" (Str.of_int 12)]
  /\ forall e, eval_expr int_only "TwElVe" e = (e, Ok (VInt 12)).
Proof.
  split; [reflexivity|]. apply (number_word_value int_only "TwElVe" 12).
  reflexivity.
Defined.

Lemma defined_variable_witness :
  is_identifier "x" = true
  /\ NUM_WORDS !! Str.lower "x" = None /\ OP_WORDS !! Str.lower "x" = None
  /\ eval_expr int_only "x" env_x = (env_x, Ok (VInt 5)).
Proof.
  do 3 (split; [reflexivity|]).
  apply (defined_variable int_only "x" (VInt 5) env_x); reflexivity.
Defined.

Lemma blank_expression_witness :
  Str.span Str.isspace "   " = String.length "   "
  /\ eval_expr int_only "   " env_x = (env_x, Raise (SyntaxError NotSingleValue)).
Proof.
  split; [reflexivity|]. apply (blank_expression int_only "   " env_x).
  reflexivity.
Defined.

Lemma eval_rpn_reads_its_names_witness :
  (eval_rpn int_only [mkToken "ID" "x"; mkToken "NUM" "1"; mkToken "OP" "+"]
     (<["y" := VInt 7]> env_x)).2
  = (eval_rpn int_only [mkToken "ID" "x"; mkToken "NUM" "1"; mkToken "OP" "+"]
       env_x).2.
Proof.
  apply (eval_rpn_reads_its_names int_only).
  repeat constructor.
Defined.

(** ** Statement runner *)

Section Runner.

Context (H : host).

Abbreviation val := (number (flonum H)).
Abbreviation env := (gmap string val).

Lemma eval_loop_syntax (rpn : list Token) (st : list val) (e : env)
    (s : syntax_error) :
  (eval_loop H rpn st e).2 = Raise (SyntaxError s) ->
  s = NotEnoughValues \/ (exists op, s = UnknownOperator op)
  \/ (exists t, s = UnexpectedTokenInRPN t).
Proof.
  revert st; induction rpn as [|t rpn IH]; intros st; [discriminate|].
  rewrite eval_loop_cons.
  destruct (eval_token H t st e).2 as [st'|x|] eqn:Ht; simpl;
    [apply IH| |discriminate].
  intros [= ->].
  apply eval_token_syntax in Ht as [(-> & _)|[(-> & _)|(-> & _)]]; eauto.
Qed.

(** [eval_expr] raises none of the runner's own errors. *)
Lemma eval_expr_no_statement_error (expr : string) (e : env) (x : exn) :
  (eval_expr H expr e).2 = Raise x -> ~ statement_error x.
Proof.
  unfold eval_expr, and_then, lift, statement_error.
  destruct (tokenize_expr expr) as [tokens|x'|] eqn:Htok; simpl;
    [| |discriminate].
  2:{ intros [= ->]. apply tokenize_loop_raises in Htok as (j & _ & _ & ->).
      intros [(k & l & [=])|(k & l & [=])]. }
  destruct (to_rpn tokens) as [rpn|x'|] eqn:Hrpn; simpl; [| |discriminate].
  2:{ intros [= ->]. unfold to_rpn in Hrpn.
      pose proof (to_rpn_loop_spec tokens [] [] stack_ok_nil) as Hloop.
      destruct (to_rpn_loop tokens [] []) as [[out stack]|x'|];
        simpl bind in Hrpn; [| |discriminate].
      - apply drain_raises in Hrpn as ->.
        intros [(k & l & [=])|(k & l & [=])].
      - injection Hrpn as ->.
        destruct Hloop as (pre & t & post & d & _ & _ & _ & Hoff).
        destruct Hoff as [(_ & _ & ->)|[(_ & _ & ->)|(_ & _ & _ & ->)]];
          intros [(k & l & [=])|(k & l & [=])]. }
  rewrite eval_rpn_unfold.
  destruct (eval_loop H rpn [] e).2 as [[|v [|w st]]|x'|] eqn:Hloop; simpl;
    try discriminate; intros [= <-];
    try (intros [(k & l & [=])|(k & l & [=])]; fail).
  intros [(k & l & ->)|(k & l & ->)];
    apply eval_loop_syntax in Hloop as [[=]|[[op [=]]|[t [=]]]].
Qed.

(** One line, case by case. *)
Lemma run_line_cases (lineno : nat) (raw : string) (e : env) (out : list val) :
  run_line H lineno raw (e, out) = ((e, out), Ok tt)
  \/ (exists v,
         printable H v = true
         /\ run_line H lineno raw (e, out) = ((e, out ++ [v]), Ok tt))
  \/ (exists name v,
         is_identifier name = true
         /\ run_line H lineno raw (e, out) = ((<[name := v]> e, out), Ok tt))
  \/ (exists x,
         run_line H lineno raw (e, out) = ((e, out), Raise x)
         /\ (forall k line, x = SyntaxError (UnknownStatement k line) ->
                            k = lineno /\ line = Str.strip raw)
         /\ (forall k name, x = SyntaxError (InvalidVariableName k name) ->
                            k = lineno)).
Proof.
  assert (Heval : forall expr (k : val -> action (env * list val) unit),
             (exists v, eval_expr H expr e = (e, Ok v)
                        /\ (let+ v := on_env H (eval_expr H expr) in k v) (e, out)
                           = k v (e, out))
             \/ (exists x, (let+ v := on_env H (eval_expr H expr) in k v) (e, out)
                           = ((e, out), Raise x)
                           /\ ~ statement_error x)).
  { intros expr k. unfold and_then, on_env.
    pose proof (eval_expr_env H expr e) as He.
    pose proof (eval_expr_returns H expr e) as Hret.
    pose proof (eval_expr_no_statement_error expr e) as Hno.
    destruct (eval_expr H expr e) as [e' [v|x|]]; simpl in *; subst e';
      [left; eauto|right; eauto|congruence]. }
  assert (Hfail : forall x,
             ~ statement_error x ->
             (forall k line, x = SyntaxError (UnknownStatement k line) ->
                             k = lineno /\ line = Str.strip raw)
             /\ (forall k name, x = SyntaxError (InvalidVariableName k name) ->
                                k = lineno)).
  { intros x Hno. split; intros k l ->; exfalso; apply Hno;
      [left|right]; eauto. }
  unfold run_line.
  destruct (_ || _); [now left|].
  destruct (Str.startswith _ "print ").
  { destruct (Heval (Str.strip (Str.drop 6 (Str.strip raw))) (print H))
      as [(v & _ & ->)|(x & -> & Hno)].
    - unfold print. destruct (printable H v) eqn:Hv.
      + right; left. exists v. auto.
      + do 3 right. exists StrDigitsError. split; [reflexivity|].
        apply Hfail. intros [(k & l & [=])|(k & l & [=])].
    - do 3 right. exists x. split; [reflexivity|]. now apply Hfail. }
  destruct (Str.contains "=" (Str.strip raw)).
  - destruct (Str.split_first "=" (Str.strip raw)) as [lhs rhs].
    destruct (is_identifier (Str.strip lhs)) eqn:Hid; cbn [negb].
    + destruct (Heval (Str.strip rhs) (assign H (Str.strip lhs)))
        as [(v & _ & ->)|(x & -> & Hno)].
      * right; right; left. exists (Str.strip lhs), v. auto.
      * do 3 right. exists x. split; [reflexivity|]. now apply Hfail.
    + do 3 right. eexists. split; [reflexivity|].
      split; [intros k l [=]|intros k l [= <- _]; reflexivity].
  - do 3 right. eexists. split; [reflexivity|].
    split; [intros k l [= <- <-]; auto|intros k l [=]].
Qed.


Lemma run_lines_raises (lines : list string) (n : nat)
    (w w' : env * list val) (x : exn) :
  run_lines H n lines w = (w', Raise x) ->
  exists pre raw post,
    lines = pre ++ raw :: post
    /\ run_lines H n pre w = (w', Ok tt)
    /\ run_line H (n + length pre) raw w' = (w', Raise x)
    /\ (forall k line, x = SyntaxError (UnknownStatement k line) ->
                       k = (n + length pre)%nat /\ line = Str.strip raw)
    /\ (forall k name, x = SyntaxError (InvalidVariableName k name) ->
                       k = (n + length pre)%nat).
Proof.
  revert n w; induction lines as [|raw lines IH]; intros n [e out];
    [discriminate|].
  cbn [run_lines]. unfold and_then at 1.
  destruct (run_line_cases n raw e out)
    as [Hr|[(v & _ & Hr)|[(name & v & _ & Hr)|(x' & Hr & Hu & Hi)]]];
    rewrite Hr.
  1-3: intros Hrest; destruct (IH _ _ Hrest)
         as (pre & raw' & post & -> & Hpre & Hline & Hu & Hi);
       exists (raw :: pre), raw', post; cbn [length run_lines];
       unfold and_then at 1; rewrite Hr, Nat.add_succ_r; auto.
  intros [= <- <-]. exists [], raw, lines. rewrite Nat.add_0_r. auto.
Qed.

(** X13.  The first error ends the run.  When [run_dsl] raises, the lines
    before some line ran without error and printed exactly the output of
    the run, that line raised and changed nothing, and no later line ran;
    an "Unknown statement" or "Invalid variable name" error carries the
    1-based number of that line, "Unknown statement" its trimmed text. *)
Theorem run_dsl_first_error (program : string) (out : list val) (x : exn) :
  run_dsl H program = (out, Raise x) ->
  exists pre raw post (e : env),
    Str.splitlines program = pre ++ raw :: post
    /\ run_lines H 1 pre (∅, []) = ((e, out), Ok tt)
    /\ run_line H (S (length pre)) raw (e, out) = ((e, out), Raise x)
    /\ (forall k line, x = SyntaxError (UnknownStatement k line) ->
                       k = S (length pre) /\ line = Str.strip raw)
    /\ (forall k name, x = SyntaxError (InvalidVariableName k name) ->
                       k = S (length pre)).
Proof.
  unfold run_dsl.
  destruct (run_lines H 1 (Str.splitlines program) (∅, []))
    as [[e out'] [[]|x'|]] eqn:Hrun; intros [= <- <-].
  destruct (run_lines_raises _ _ _ _ _ Hrun)
    as (pre & raw & post & Hlines & Hpre & Hline & Hu & Hi).
  exists pre, raw, post, e. auto.
Qed.

Lemma run_lines_names (lines : list string) (n : nat) (e e' : env)
    (out out' : list val) :
  (forall name, is_Some (e !! name) -> is_identifier name = true) ->
  run_lines H n lines (e, out) = ((e', out'), Ok tt) ->
  forall name, is_Some (e' !! name) -> is_identifier name = true.
Proof.
  revert n e out; induction lines as [|raw lines IH]; intros n e out Hnames.
  { now intros [= <- <-]. }
  cbn [run_lines]. unfold and_then at 1.
  destruct (run_line_cases n raw e out)
    as [Hr|[(v & _ & Hr)|[(name & v & Hid & Hr)|(x' & Hr & _)]]]; rewrite Hr;
    [eapply IH; eassumption..| |discriminate].
  apply IH. intros name' Hsome.
  destruct (decide (name = name')) as [<-|Hne]; [assumption|].
  apply Hnames. now rewrite lookup_insert_ne in Hsome.
Qed.

(** X14.  Every name in the environment [run_dsl] returns matches the
    identifier pattern [[A-Za-z_][A-Za-z_0-9]*]. *)
Theorem run_dsl_names (program : string) (out : list val) (e : env) :
  run_dsl H program = (out, Ok e) ->
  forall name, is_Some (e !! name) -> is_identifier name = true.
Proof.
  unfold run_dsl.
  destruct (run_lines H 1 (Str.splitlines program) (∅, []))
    as [[e' out'] [[]|x'|]] eqn:Hrun; intros [= <- <-].
  eapply run_lines_names; [|exact Hrun].
  intros name [v Hv]. now rewrite lookup_empty in Hv.
Qed.

End Runner.

Lemma run_dsl_first_error_witness :
  run_dsl int_only failing_program
  = ([VInt 5], Raise (SyntaxError (UnknownStatement 3 "foo bar")))
  /\ exists pre raw post e,
      Str.splitlines failing_program = pre ++ raw :: post
      /\ run_lines int_only 1 pre (∅, []) = ((e, [VInt 5]), Ok tt)
      /\ run_line int_only (S (length pre)) raw (e, [VInt 5])
         = ((e, [VInt 5]), Raise (SyntaxError (UnknownStatement 3 "foo bar")))
      /\ (forall k line,
             SyntaxError (UnknownStatement 3 "foo bar")
             = SyntaxError (UnknownStatement k line) ->
             k = S (length pre) /\ line = Str.strip raw)
      /\ (forall k name,
             SyntaxError (UnknownStatement 3 "foo bar")
             = SyntaxError (InvalidVariableName k name) ->
             k = S (length pre)).
Proof.
  split; [reflexivity|].
  apply (run_dsl_first_error int_only failing_program). reflexivity.
Defined.

Lemma run_dsl_names_witness :
  run_dsl int_only two_names_program
  = ([], Ok (<["y_2" := VInt 10]> (<["x" := VInt 5]> ∅)))
  /\ forall name,
      is_Some ((<["y_2" := VInt 10]> (<["x" := VInt 5]> ∅)
                : gmap string (number (flonum int_only))) !! name) ->
      is_identifier name = true.
Proof.
  split; [vm_compute; reflexivity|].
  apply (run_dsl_names int_only two_names_program []). vm_compute. reflexivity.
Defined.

(** ** Two operators *)

Lemma to_rpn_step_operand (t : Token) (out stack : list Token) :
  is_operand t = true -> to_rpn_step t out stack = Ok (out ++ [t], stack).
Proof. unfold to_rpn_step, is_operand. now intros ->. Qed.

Lemma to_rpn_step_operator (t : Token) (out stack : list Token)
    (p : Z) (a : string) :
  kind t = "OP" -> PRECEDENCE !! value t = Some (p, a) ->
  to_rpn_step t out stack
  = (let* (o, s) := pop_operators p a out stack in Ok (o, t :: s)).
Proof.
  intros Hk Hp. unfold to_rpn_step. fold (is_operand t).
  destruct (kind_OP_facts t Hk) as [-> _].
  apply kind_is_true in Hk. now rewrite Hk, Hp.
Qed.

(** X15.  The grouping rule for two operators.  In [x o1 y o2 z], with
    operands [x], [y], [z] and operators of the precedence table, [o1] is
    applied first, to [x] and [y], when [o2] is left-associative with a
    precedence not above that of [o1], or right-associative with a
    precedence below it; otherwise [o2] is applied first, to [y] and
    [z]. *)
Theorem two_operators (x y z o1 o2 : Token) (p1 p2 : Z) (a1 a2 : string) :
  is_operand x = true -> is_operand y = true -> is_operand z = true ->
  kind o1 = "OP" -> kind o2 = "OP" ->
  PRECEDENCE !! value o1 = Some (p1, a1) ->
  PRECEDENCE !! value o2 = Some (p2, a2) ->
  to_rpn [x; o1; y; o2; z]
  = Ok (if String.eqb a2 "left" && (p2 <=? p1)
           || String.eqb a2 "right" && (p2 <? p1)
        then [x; y; o1; z; o2]
        else [x; y; z; o2; o1]).
Proof.
  intros Hx Hy Hz Hk1 Hk2 Hp1 Hp2. unfold to_rpn. cbn [to_rpn_loop].
  rewrite (to_rpn_step_operand x) by assumption. cbn [bind app].
  rewrite (to_rpn_step_operator o1 _ _ p1 a1) by assumption.
  cbn [pop_operators bind].
  rewrite (to_rpn_step_operand y) by assumption. cbn [bind app].
  rewrite (to_rpn_step_operator o2 _ _ p2 a2) by assumption.
  cbn [pop_operators]. apply kind_is_true in Hk1 as Hk1'. rewrite Hk1', Hp1.
  destruct (String.eqb a2 "left" && (p2 <=? p1) || _);
    cbn [pop_operators bind app];
    rewrite (to_rpn_step_operand z) by assumption; cbn [bind app drain];
    destruct (kind_OP_facts o1 Hk1) as [_ Hpar1];
    destruct (kind_OP_facts o2 Hk2) as [_ Hpar2];
    unfold is_paren in Hpar1, Hpar2;
    rewrite ?Hpar1, ?Hpar2; cbn [app drain]; rewrite ?Hpar1, ?Hpar2;
    reflexivity.
Qed.

Lemma two_operators_witness :
  to_rpn [mkToken "ID" "a"; mkToken "OP" "-"; mkToken "NUM" "2";
          mkToken "OP" "+"; mkToken "ID" "b"]
  = Ok [mkToken "ID" "a"; mkToken "NUM" "2"; mkToken "OP" "-";
        mkToken "ID" "b"; mkToken "OP" "+"].
Proof.
  apply (two_operators (mkToken "ID" "a") (mkToken "NUM" "2") (mkToken "ID" "b")
           (mkToken "OP" "-") (mkToken "OP" "+") 2 2 "left" "left");
    reflexivity.
Defined.

(** ** Tokenizer: where it fails *)

Lemma drop_drop (s : string) (m n : nat) :
  Str.drop n (Str.drop m s) = Str.drop (m + n) s.
Proof.
  revert s; induction m as [|m IH]; intros s; [reflexivity|].
  destruct s as [|c s]; simpl; [now destruct n|apply IH].
Qed.

Lemma first_bad_space (s : string) :
  first_bad false s
  = Nat.add (Str.span Str.isspace s)
    <$> first_bad false (Str.drop (Str.span Str.isspace s) s).
Proof.
  induction s as [|c s IH]; [reflexivity|]. cbn [Str.span].
  destruct (Str.isspace c) eqn:Hc.
  - cbn [first_bad Str.drop andb orb]. rewrite Hc. cbn [orb].
    rewrite IH at 1. now destruct (first_bad false (Str.drop _ s)).
  - cbn [Str.drop]. now destruct (first_bad false (String c s)).
Qed.

Lemma first_bad_id (s : string) :
  first_bad true s
  = Nat.add (Str.span is_id_char s)
    <$> first_bad false (Str.drop (Str.span is_id_char s) s).
Proof.
  induction s as [|c s IH]; [reflexivity|]. cbn [Str.span].
  destruct (is_id_char c) eqn:Hc.
  - cbn [first_bad Str.drop andb]. rewrite Hc.
    rewrite IH at 1. now destruct (first_bad false (Str.drop _ s)).
  - assert (Hsame : first_bad true (String c s) = first_bad false (String c s))
      by (cbn [first_bad andb]; now rewrite Hc).
    rewrite Hsame. cbn [Str.drop].
    now destruct (first_bad false (String c s)).
Qed.

Ltac same_position :=
  match goal with
  | |- Raise (SyntaxError (UnexpectedCharacter ?a _))
       = Raise (SyntaxError (UnexpectedCharacter ?b _)) =>
      replace a with b by lia; reflexivity
  end.

Lemma tokenize_loop_first_bad (expr : string) (fuel i : nat)
    (tokens : list Token) :
  (String.length expr - i <= fuel)%nat ->
  match first_bad false (Str.drop i expr) with
  | None => exists tokens', tokenize_loop fuel expr i tokens = Ok tokens'
  | Some k =>
      tokenize_loop fuel expr i tokens
      = Raise (SyntaxError
                 (UnexpectedCharacter (i + k)
                    (Str.slice (i + k) (S (i + k)) expr)))
  end.
Proof.
  revert i tokens; induction fuel as [|fuel IH]; intros i tokens Hfuel.
  { pose proof (length_drop expr i) as Hlen.
    destruct (Str.drop i expr); [|simpl in Hlen; lia].
    cbn [first_bad]. rewrite tokenize_loop_end by lia. eauto. }
  cbn [tokenize_loop].
  destruct (Nat.ltb_spec i (String.length expr)) as [Hlt|Hge].
  2:{ pose proof (length_drop expr i) as Hlen.
      destruct (Str.drop i expr); [|simpl in Hlen; lia].
      cbn [first_bad]. eauto. }
  destruct (String.get i expr) as [c|] eqn:Hg.
  2:{ exfalso. clear -Hlt Hg. revert i Hlt Hg.
      induction expr as [|d expr IHe]; intros [|i]; simpl; try lia;
        try discriminate.
      intros Hlt. apply IHe. lia. }
  rewrite (get_drop _ _ _ Hg). unfold TOKEN_RE_match. rewrite Hg.
  cbn [first_bad andb].
  destruct (Str.isspace c) eqn:Hsp; cbn [orb].
  { rewrite (get_drop _ _ _ Hg). cbn [Str.span]. rewrite Hsp.
    rewrite first_bad_space, drop_drop.
    specialize (IH (i + S (Str.span Str.isspace (Str.drop (S i) expr)))%nat
                  (tokens ++ token_of WS
                     (Str.slice i
                        (i + S (Str.span Str.isspace (Str.drop (S i) expr)))
                        expr))).
    replace (S i + Str.span Str.isspace (Str.drop (S i) expr))%nat
      with (i + S (Str.span Str.isspace (Str.drop (S i) expr)))%nat by lia.
    destruct (first_bad false (Str.drop _ expr)) as [k|]; cbn [fmap option_fmap option_map].
    - rewrite IH by lia. same_position.
    - apply IH. lia. }
  destruct (Ascii.eqb c "(") eqn:Hl; cbn [orb].
  { specialize (IH (S i)
                  (tokens ++ token_of LPAREN (Str.slice i (S i) expr))).
    destruct (first_bad false (Str.drop (S i) expr)) as [k|];
      cbn [fmap option_fmap option_map].
    - rewrite IH by lia. same_position.
    - apply IH. lia. }
  destruct (Ascii.eqb c ")") eqn:Hr; cbn [orb].
  { specialize (IH (S i)
                  (tokens ++ token_of RPAREN (Str.slice i (S i) expr))).
    destruct (first_bad false (Str.drop (S i) expr)) as [k|];
      cbn [fmap option_fmap option_map].
    - rewrite IH by lia. same_position.
    - apply IH. lia. }
  destruct (Ascii.eqb c "=") eqn:He; cbn [orb].
  { specialize (IH (S i)
                  (tokens ++ token_of EQ (Str.slice i (S i) expr))).
    destruct (first_bad false (Str.drop (S i) expr)) as [k|];
      cbn [fmap option_fmap option_map].
    - rewrite IH by lia. same_position.
    - apply IH. lia. }
  destruct (is_id_start c) eqn:Hc.
  { rewrite first_bad_id, drop_drop.
    pose proof (span_le is_id_char (Str.drop (S i) expr)) as Hspan.
    specialize (IH (S i + Str.span is_id_char (Str.drop (S i) expr))%nat
                  (tokens ++ token_of ID
                     (Str.slice i
                        (S i + Str.span is_id_char (Str.drop (S i) expr))
                        expr))).
    destruct (first_bad false (Str.drop _ expr)) as [k|];
      cbn [fmap option_fmap option_map].
    - rewrite IH by lia. same_position.
    - apply IH. lia. }
  rewrite Nat.add_0_r. reflexivity.
Qed.

(** X17.  Where the tokenizer fails.  Reading the text from the left, the
    first character that neither continues an identifier nor is white
    space, a parenthesis, an equals sign or the start of an identifier is
    the one [tokenize_expr] reports, with its position; a text with no
    such character is tokenized. *)
Theorem tokenize_expr_first_bad (expr : string) :
  match first_bad false expr with
  | None => exists tokens, tokenize_expr expr = Ok tokens
  | Some i =>
      (i < String.length expr)%nat
      /\ tokenize_expr expr
         = Raise (SyntaxError
                    (UnexpectedCharacter i (Str.slice i (S i) expr)))
  end.
Proof.
  pose proof (tokenize_loop_first_bad expr (String.length expr) 0 []) as Hloop.
  cbn [Str.drop Nat.add] in Hloop. unfold tokenize_expr.
  destruct (first_bad false expr) as [i|] eqn:Hbad; [|apply Hloop; lia].
  split; [|apply Hloop; lia].
  assert (Hgen : forall b s k, first_bad b s = Some k -> (k < String.length s)%nat).
  { clear. intros b s; revert b; induction s as [|c s IH]; intros b k;
      [discriminate|]. cbn [first_bad String.length].
    repeat match goal with
           | |- context [if ?c then _ else _] => destruct c
           end;
      try (destruct (first_bad _ s) as [j|] eqn:Hj; [|discriminate];
           intros [= <-]; apply IH in Hj; lia).
    intros [= <-]. lia. }
  eapply Hgen. exact Hbad.
Qed.

(** ** Assignment statements *)

Lemma split_first_at (c : ascii) (l r : string) :
  Str.contains c l = false ->
  Str.contains c (l +:+ String c r) = true
  /\ Str.split_first c (l +:+ String c r) = (l, r).
Proof.
  induction l as [|d l IH]; simpl.
  - intros _. now rewrite Ascii.eqb_refl.
  - destruct (Ascii.eqb c d); [discriminate|]. simpl. intros Hl.
    destruct (IH Hl) as [-> ->]. auto.
Qed.

Section Assignment.

Context (H : host).

Abbreviation val := (number (flonum H)).
Abbreviation env := (gmap string val).

(** X16.  An assignment statement.  A trimmed line that is no comment and
    no print statement is split at its first equals sign.  When the
    trimmed text before it matches the identifier pattern, the trimmed
    text after it is evaluated: a value is bound to that name, any earlier
    binding replaced and nothing printed, and an exception is raised
    again with the environment left as it was.  When it does not match,
    the runner raises "Invalid variable name" with the line number and
    that text, and evaluates nothing. *)
Theorem assignment_statement (lineno : nat) (raw lhs rhs : string) (e : env)
    (out : list val) :
  Str.strip raw = lhs +:+ String "=" rhs -> Str.contains "=" lhs = false ->
  Str.startswith (Str.strip raw) "#" = false ->
  Str.startswith (Str.lower (Str.strip raw)) "print " = false ->
  if is_identifier (Str.strip lhs) then
    (exists v,
        eval_expr H (Str.strip rhs) e = (e, Ok v)
        /\ run_line H lineno raw (e, out)
           = ((<[Str.strip lhs := v]> e, out), Ok tt))
    \/ (exists x,
           eval_expr H (Str.strip rhs) e = (e, Raise x)
           /\ run_line H lineno raw (e, out) = ((e, out), Raise x))
  else
    run_line H lineno raw (e, out)
    = ((e, out),
       Raise (SyntaxError (InvalidVariableName lineno (Str.strip lhs)))).
Proof.
  intros Hline Hlhs Hcomment Hprint. unfold run_line.
  rewrite Hcomment, Hprint, Hline.
  destruct (split_first_at "=" lhs rhs Hlhs) as [-> ->].
  assert (Hne : String.eqb (lhs +:+ String "=" rhs) "" = false)
    by now destruct lhs.
  rewrite Hne. cbn [orb].
  destruct (is_identifier (Str.strip lhs)); cbn [negb]; [|reflexivity].
  pose proof (eval_expr_env H (Str.strip rhs) e) as He.
  pose proof (eval_expr_returns H (Str.strip rhs) e) as Hret.
  unfold and_then, on_env, assign, env_setitem.
  destruct (eval_expr H (Str.strip rhs) e) as [e' [v|x|]]; simpl in *;
    subst e'; [left|right|congruence]; eauto.
Qed.

End Assignment.

Lemma assignment_statement_witness :
  (Str.strip " x = x plus one " = "x " +:+ String "=" " x plus one"
   /\ Str.contains "=" "x " = false
   /\ Str.startswith (Str.strip " x = x plus one ") "#" = false
   /\ Str.startswith (Str.lower (Str.strip " x = x plus one ")) "print "
      = false)
  /\ run_line int_only 4 " x = x plus one " (env_x, [])
     = ((<["x" := VInt 6]> env_x, []), Ok tt).
Proof.
  split; [repeat split|].
  pose proof (assignment_statement int_only 4 " x = x plus one " "x "
                " x plus one" env_x [] eq_refl eq_refl eq_refl eq_refl)
    as Hassign.
  change (is_identifier (Str.strip "x ")) with true in Hassign.
  cbn iota in Hassign.
  destruct Hassign as [(v & Hv & ->)|(x & Hx & _)].
  - vm_compute in Hv. now injection Hv as <-.
  - vm_compute in Hx. discriminate Hx.
Defined.

(** ** Parentheses *)

Lemma to_rpn_loop_app (l1 l2 out stack : list Token) :
  to_rpn_loop (l1 ++ l2) out stack
  = (let* (out', stack') := to_rpn_loop l1 out stack in
     to_rpn_loop l2 out' stack').
Proof.
  revert out stack; induction l1 as [|t l1 IH]; intros out stack; simpl.
  - reflexivity.
  - destruct (to_rpn_step t out stack) as [[o s]| |]; simpl; auto.
Qed.

(** What the parser does above a left parenthesis does not depend on what
    lies below it, nor on what was output before. *)
Lemma pop_operators_frame (p1 : Z) (assoc1 : string)
    (o1 s1 o2 s2 out base : list Token) (lp : Token) :
  kind lp = "LPAREN" ->
  pop_operators p1 assoc1 o1 s1 = Ok (o2, s2) ->
  pop_operators p1 assoc1 (out ++ o1) (s1 ++ lp :: base)
  = Ok (out ++ o2, s2 ++ lp :: base).
Proof.
  intros Hlp. rewrite <- kind_is_true in Hlp.
  revert o1; induction s1 as [|top rest IH]; intros o1; simpl.
  - intros [= <- <-]. now rewrite (kind_is_other _ _ "OP" Hlp).
  - destruct (kind_is top "OP"); [|now intros [= <- <-]].
    destruct (PRECEDENCE !! value top) as [[p2 a2]|]; [|discriminate].
    destruct (_ || _); [|now intros [= <- <-]].
    intros Hpop. rewrite <- app_assoc. now apply IH.
Qed.

Lemma pop_to_lparen_frame (o1 s1 o2 rest out base : list Token)
    (lp' : Token) :
  pop_to_lparen o1 s1 = (o2, lp' :: rest) ->
  pop_to_lparen (out ++ o1) (s1 ++ base) = (out ++ o2, lp' :: rest ++ base).
Proof.
  revert o1; induction s1 as [|top s1 IH]; intros o1; simpl; [discriminate|].
  destruct (kind_is top "LPAREN"); simpl; [now intros [= <- <- <-]|].
  intros Hpop. rewrite <- app_assoc. now apply IH.
Qed.

Lemma to_rpn_step_frame (t lp : Token) (o1 s1 o2 s2 out base : list Token) :
  kind lp = "LPAREN" ->
  to_rpn_step t o1 s1 = Ok (o2, s2) ->
  to_rpn_step t (out ++ o1) (s1 ++ lp :: base)
  = Ok (out ++ o2, s2 ++ lp :: base).
Proof.
  intros Hlp. unfold to_rpn_step.
  destruct (_ || _); [intros [= <- <-]; now rewrite app_assoc|].
  destruct (kind_is t "OP").
  { destruct (PRECEDENCE !! value t) as [[p1 assoc1]|]; [|discriminate].
    destruct (pop_operators p1 assoc1 o1 s1) as [[o s]| |] eqn:Hpop; simpl;
      try discriminate.
    intros [= <- <-].
    now rewrite (pop_operators_frame _ _ _ _ _ _ out base lp Hlp Hpop). }
  destruct (kind_is t "LPAREN"); [now intros [= <- <-]|].
  destruct (kind_is t "RPAREN"); [|discriminate].
  destruct (pop_to_lparen o1 s1) as [o [|lp' rest]] eqn:Hpop; [discriminate|].
  rewrite (pop_to_lparen_frame _ _ _ _ out (lp :: base) _ Hpop).
  destruct (kind_is lp' "LPAREN"); simpl; [|discriminate].
  now intros [= <- <-].
Qed.

Lemma to_rpn_loop_frame (tokens : list Token) (lp : Token)
    (o1 s1 o2 s2 out base : list Token) :
  kind lp = "LPAREN" ->
  to_rpn_loop tokens o1 s1 = Ok (o2, s2) ->
  to_rpn_loop tokens (out ++ o1) (s1 ++ lp :: base)
  = Ok (out ++ o2, s2 ++ lp :: base).
Proof.
  intros Hlp. revert o1 s1; induction tokens as [|t tokens IH];
    intros o1 s1; simpl.
  - now intros [= <- <-].
  - destruct (to_rpn_step t o1 s1) as [[o s]| |] eqn:Hstep; simpl;
      try discriminate.
    rewrite (to_rpn_step_frame _ _ _ _ _ _ out base Hlp Hstep). simpl.
    apply IH.
Qed.

Lemma pop_to_lparen_all (out moved base : list Token) (lp : Token) :
  kind lp = "LPAREN" -> Forall (fun t => is_paren t = false) moved ->
  pop_to_lparen out (moved ++ lp :: base) = (out ++ moved, lp :: base).
Proof.
  intros Hlp Hm. rewrite <- kind_is_true in Hlp.
  revert out; induction Hm as [|t moved Ht Hm IH]; intros out; simpl.
  - rewrite Hlp, app_nil_r. reflexivity.
  - unfold is_paren in Ht. apply orb_false_iff in Ht as [-> _]. simpl.
    rewrite IH, <- app_assoc. reflexivity.
Qed.

(** X18.  Parentheses enclose.  When the tokens [inner] alone parse to
    [rpn], the tokens "(" [inner] ")" met anywhere in an expression add
    [rpn] to the output and leave the operator stack as it was; alone,
    they parse to [rpn] too. *)
Theorem parenthesized (inner rpn : list Token) (lp rp : Token) :
  to_rpn inner = Ok rpn -> kind lp = "LPAREN" -> kind rp = "RPAREN" ->
  (forall out stack,
      to_rpn_loop (lp :: inner ++ [rp]) out stack = Ok (out ++ rpn, stack))
  /\ to_rpn (lp :: inner ++ [rp]) = Ok rpn.
Proof.
  intros Hinner Hlp Hrp. unfold to_rpn in Hinner.
  destruct (to_rpn_loop inner [] []) as [[o s]| |] eqn:Hloop;
    simpl in Hinner; try discriminate.
  apply drain_shape in Hinner as [-> Hnp].
  assert (Hgen : forall out stack,
             to_rpn_loop (lp :: inner ++ [rp]) out stack
             = Ok (out ++ o ++ s, stack)).
  { intros out stack. cbn [to_rpn_loop].
    assert (Hstep : to_rpn_step lp out stack = Ok (out, lp :: stack)).
    { unfold to_rpn_step. rewrite <- kind_is_true in Hlp.
      rewrite (kind_is_other _ _ "NUM" Hlp), (kind_is_other _ _ "ID" Hlp),
        (kind_is_other _ _ "OP" Hlp), Hlp by discriminate. reflexivity. }
    rewrite Hstep. cbn [bind]. rewrite to_rpn_loop_app.
    pose proof (to_rpn_loop_frame inner lp [] [] o s out stack Hlp Hloop)
      as Hframe.
    rewrite app_nil_r in Hframe. cbn [app] in Hframe. rewrite Hframe.
    cbn [bind to_rpn_loop]. unfold to_rpn_step.
    rewrite <- kind_is_true in Hrp.
    rewrite (kind_is_other _ _ "NUM" Hrp), (kind_is_other _ _ "ID" Hrp),
      (kind_is_other _ _ "OP" Hrp), (kind_is_other _ _ "LPAREN" Hrp), Hrp
      by discriminate.
    cbn [orb]. rewrite (pop_to_lparen_all _ _ _ _ Hlp Hnp).
    rewrite <- kind_is_true in Hlp. rewrite Hlp. cbn [negb bind].
    now rewrite app_assoc. }
  split; [exact Hgen|]. unfold to_rpn. rewrite (Hgen [] []). reflexivity.
Qed.

Lemma parenthesized_witness :
  to_rpn [mkToken "NUM" "1"; mkToken "OP" "+"; mkToken "ID" "x"]
  = Ok [mkToken "NUM" "1"; mkToken "ID" "x"; mkToken "OP" "+"]
  /\ to_rpn (mkToken "LPAREN" "("
             :: [mkToken "NUM" "1"; mkToken "OP" "+"; mkToken "ID" "x"]
             ++ [mkToken "RPAREN" ")"])
     = Ok [mkToken "NUM" "1"; mkToken "ID" "x"; mkToken "OP" "+"].
Proof.
  split; [reflexivity|].
  apply (parenthesized [mkToken "NUM" "1"; mkToken "OP" "+"; mkToken "ID" "x"]);
    reflexivity.
Defined.

(** ** Operator words; evaluation of a compound sequence *)

Lemma OP_WORDS_word (w op : string) :
  OP_WORDS !! w = Some op ->
  is_identifier w = true /\ NUM_WORDS !! w = None.
Proof.
  intros Hw. apply elem_of_list_to_map_2 in Hw.
  repeat (apply elem_of_cons in Hw as [[= -> ->]|Hw];
          [split; reflexivity|]).
  now apply elem_of_nil in Hw.
Qed.

Section Compound.

Context (H : host).

Abbreviation val := (number (flonum H)).
Abbreviation env := (gmap string val).

(** X19.  Operator words are read whatever their letter case, and no
    environment turns one into a variable: a text whose lower-case form is
    a key of [OP_WORDS] is the single token OP of that operator, and
    evaluating it alone raises "Not enough values" in every environment. *)
Theorem operator_word (text op : string) :
  OP_WORDS !! Str.lower text = Some op ->
  tokenize_expr text = Ok [mkToken "OP" op]
  /\ forall e : env,
      eval_expr H text e = (e, Raise (SyntaxError NotEnoughValues)).
Proof.
  intros Hop. destruct (OP_WORDS_word _ _ Hop) as [Hid Hnum].
  rewrite is_identifier_lower in Hid.
  assert (Htok : tokenize_expr text = Ok [mkToken "OP" op]).
  { rewrite (tokenize_word _ Hid). cbn [token_of]. now rewrite Hnum, Hop. }
  split; [assumption|]. intros e.
  destruct (OP_WORDS_PRECEDENCE _ _ Hop) as [[p a] Hprec].
  assert (Hrpn : to_rpn [mkToken "OP" op] = Ok [mkToken "OP" op]).
  { unfold to_rpn. cbn [to_rpn_loop].
    rewrite (to_rpn_step_operator (mkToken "OP" op) [] [] p a) by easy.
    reflexivity. }
  unfold eval_expr, and_then, lift. rewrite Htok, Hrpn.
  rewrite eval_rpn_unfold, eval_loop_cons. reflexivity.
Qed.

Lemma eval_token_frame (t : Token) (st st' base : list val) (e : env) :
  (eval_token H t st e).2 = Ok st' ->
  (eval_token H t (st ++ base) e).2 = Ok (st' ++ base).
Proof.
  unfold eval_token.
  destruct (kind_is t "NUM").
  { destruct (Str.to_int (value t)); [|discriminate]. now intros [= <-]. }
  destruct (kind_is t "ID").
  { unfold and_then, env_contains, env_getitem. simpl.
    destruct (e !! value t) eqn:Hget; simpl; rewrite ?Hget; [|discriminate].
    now intros [= <-]. }
  destruct (kind_is t "OP"); [|discriminate].
  destruct st as [|b [|a st2]]; [discriminate..|].
  unfold lift. cbn [pop_num bind snd app].
  repeat match goal with
         | |- context [if ?c then _ else _] => destruct c
         end; try discriminate;
    match goal with
    | |- (let* r := ?m in _) = _ -> _ => destruct m; simpl; try discriminate
    end; now intros [= <-].
Qed.

Lemma eval_loop_frame (rpn : list Token) (st st' base : list val) (e : env) :
  (eval_loop H rpn st e).2 = Ok st' ->
  (eval_loop H rpn (st ++ base) e).2 = Ok (st' ++ base).
Proof.
  revert st; induction rpn as [|t rpn IH]; intros st.
  { now intros [= <-]. }
  rewrite !eval_loop_cons.
  destruct (eval_token H t st e).2 as [st1|x|] eqn:Ht; simpl;
    [|discriminate..].
  rewrite (eval_token_frame _ _ _ base _ Ht). apply IH.
Qed.

Lemma eval_loop_app (r1 r2 : list Token) (st st1 : list val) (e : env) :
  (eval_loop H r1 st e).2 = Ok st1 ->
  (eval_loop H (r1 ++ r2) st e).2 = (eval_loop H r2 st1 e).2.
Proof.
  revert st; induction r1 as [|t r1 IH]; intros st.
  { now intros [= <-]. }
  cbn [app]. rewrite !eval_loop_cons.
  destruct (eval_token H t st e).2 as [st'|x|]; simpl; [apply IH|discriminate..].
Qed.

Lemma eval_rpn_value (rpn : list Token) (e : env) (v : val) :
  (eval_rpn H rpn e).2 = Ok v -> (eval_loop H rpn [] e).2 = Ok [v].
Proof.
  rewrite eval_rpn_unfold.
  destruct (eval_loop H rpn [] e).2 as [[|w [|w' st]]|x|]; simpl;
    try discriminate.
  now intros [= <-].
Qed.

(** X20.  Postfix evaluation composes.  If [ra] evaluates to [a] and [rb]
    to [b], then [ra] followed by [rb] and by an operator token evaluates
    to the operator applied to [a] on the left and [b] on the right: the
    result of [a + b], [a - b], [a * b], [a / b] or [a ** b], value or
    exception. *)
Theorem eval_rpn_compound (ra rb : list Token) (a b : val) (e : env) :
  (eval_rpn H ra e).2 = Ok a -> (eval_rpn H rb e).2 = Ok b ->
  (eval_rpn H (ra ++ rb ++ [mkToken "OP" "+"]) e).2 = add H a b
  /\ (eval_rpn H (ra ++ rb ++ [mkToken "OP" "-"]) e).2 = sub H a b
  /\ (eval_rpn H (ra ++ rb ++ [mkToken "OP" "*"]) e).2 = mul H a b
  /\ (eval_rpn H (ra ++ rb ++ [mkToken "OP" "/"]) e).2 = truediv H a b
  /\ (eval_rpn H (ra ++ rb ++ [mkToken "OP" "**"]) e).2 = pow H a b.
Proof.
  intros Ha%eval_rpn_value Hb%eval_rpn_value.
  assert (Hgen : forall t,
             (eval_rpn H (ra ++ rb ++ [t]) e).2
             = match (eval_token H t [b; a] e).2 with
               | Ok [v] => Ok v
               | Ok _ => Raise (SyntaxError NotSingleValue)
               | Raise x => Raise x
               | OutOfFuel => OutOfFuel
               end).
  { intros t. rewrite eval_rpn_unfold.
    rewrite (eval_loop_app ra _ [] [a] e Ha).
    apply (eval_loop_frame rb [] [b] [a]) in Hb. cbn [app] in Hb.
    rewrite (eval_loop_app rb _ [a] [b; a] e Hb).
    rewrite eval_loop_cons. cbn [eval_loop].
    destruct (eval_token H t [b; a] e).2 as [[|v [|w st]]|x|]; reflexivity. }
  repeat split; rewrite Hgen; unfold eval_token, kind_is, lift;
    cbn [kind value String.eqb Ascii.eqb Bool.eqb pop_num bind snd];
    match goal with
    | |- context [let* r := ?m in _] => now destruct m
    end.
Qed.

End Compound.

Lemma operator_word_witness :
  OP_WORDS !! Str.lower "Divided_By" = Some "/"
  /\ tokenize_expr "Divided_By" = Ok [mkToken "OP" "/"]
  /\ forall e, eval_expr int_only "Divided_By" e
               = (e, Raise (SyntaxError NotEnoughValues)).
Proof.
  split; [reflexivity|]. apply (operator_word int_only "Divided_By" "/").
  reflexivity.
Defined.

Lemma eval_rpn_compound_witness :
  (eval_rpn int_only [mkToken "ID" "x"] env_x).2 = Ok (VInt 5)
  /\ (eval_rpn int_only [mkToken "NUM" "2"; mkToken "NUM" "3"; mkToken "OP" "*"]
        env_x).2 = Ok (VInt 6)
  /\ (eval_rpn int_only
        ([mkToken "ID" "x"]
         ++ [mkToken "NUM" "2"; mkToken "NUM" "3"; mkToken "OP" "*"]
         ++ [mkToken "OP" "-"]) env_x).2
     = sub int_only (VInt 5) (VInt 6).
Proof.
  do 2 (split; [reflexivity|]).
  apply (eval_rpn_compound int_only [mkToken "ID" "x"]
           [mkToken "NUM" "2"; mkToken "NUM" "3"; mkToken "OP" "*"]
           (VInt 5) (VInt 6) env_x); reflexivity.
Defined.
